(** * Optik: the EVM world orchestrator and the Echidna corpus bridge

    Shallow embedding of [optik/common/world.py] (the [EVMWorld]
    orchestrator and its [ContractRunner] / [EVMRuntime] helpers) and of
    [optik/echidna/interface.py] (translation between Echidna JSON
    transactions and symbolic transactions).

    Conventions of the embedding.
    - Python exceptions are the constructors of [Exc]; a stateful Python
      method is a computation of the state and exception monad [st]: on an
      exception the state reached so far is kept, as in Python, where the
      mutations performed before a [raise] stay visible.
    - The symbolic engine (Maat) is external. Each [EVMRuntime.run] call
      consumes the next answer of an engine oracle (its stop reason, its
      exit status, the outgoing transaction and the transaction result it
      leaves in the EVM contract view).
    - Python lists used as stacks ([call_stack], [runtime_stack]) are stored
      top first: the head of the Rocq list is the Python element [-1]. *)

From Stdlib Require Import ZArith String Ascii List Bool Lia.
From stdpp Require Import base gmap strings list.

Open Scope Z_scope.

(* ------------------------------------------------------------------ *)
(** ** Python exceptions and the state/exception monad *)

(** The messages of the [WorldException]s raised by world.py. *)
Inductive world_msg :=
| NoMoreTransactions           (* "No more transactions to execute" *)
| NoContractAtRecipient        (* "Transaction recipient is ..., but no contract is deployed there" *)
| NoCurrentContract            (* "No contract being currently executed" *)
| AddressInUse                 (* "Couldn't deploy ..., address ... already in use" *)
| NoContractForCall            (* "Contract emitted call to ... but no contract deployed at this address" *)
| UnsupportedTxType            (* "Contract emitted an unsupported transaction type" *)
| TxTypeNotImplemented         (* "Transaction type ... not implemented" *)
| ReturnBufferOverflow.        (* "Message call returned more bytes than the buffer-size ..." *)

Inductive Exc :=
| WorldException (m : world_msg)
| EchidnaException (m : string)
| GenericException (m : string)
| KeyError
| IndexError
| TypeError
| ValueError
| AttributeError
| RecursionError
(** raised by the Maat bindings: [VarContext.get] of an unknown variable,
    [Value.as_uint] of a value that is not concrete *)
| MaatError.

Inductive outcome (S A : Type) :=
| Ok (a : A) (s : S)
| Raise (e : Exc) (s : S).
Arguments Ok {S A} a s.
Arguments Raise {S A} e s.

Definition st (S A : Type) : Type := S -> outcome S A.

Definition ret {S A} (a : A) : st S A := fun s => Ok a s.
Definition bind {S A B} (m : st S A) (k : A -> st S B) : st S B :=
  fun s => match m s with
           | Ok a s' => k a s'
           | Raise e s' => Raise e s'
           end.
Definition throw {S A} (e : Exc) : st S A := fun s => Raise e s.
Definition get_state {S} : st S S := fun s => Ok s s.
Definition modify {S} (f : S -> S) : st S unit := fun s => Ok tt (f s).

Notation "x <- m ;; k" := (bind m (fun x => k))
  (at level 100, m at next level, right associativity).

(** Lift an [option] into the monad, raising [e] on [None]. *)
Definition lift_opt {S A} (e : Exc) (o : option A) : st S A :=
  match o with Some a => ret a | None => throw e end.

Definition state_of {S A} (o : outcome S A) : S :=
  match o with Ok _ s => s | Raise _ s => s end.

(** Pure (stateless) Python functions: a value or an exception. *)
Inductive pyres (A : Type) :=
| POk (a : A)
| PRaise (e : Exc).
Arguments POk {A} a.
Arguments PRaise {A} e.

Definition pbind {A B} (m : pyres A) (k : A -> pyres B) : pyres B :=
  match m with POk a => k a | PRaise e => PRaise e end.
Notation "x <-- m ;; k" := (pbind m (fun x => k))
  (at level 100, m at next level, right associativity).
Definition popt {A} (e : Exc) (o : option A) : pyres A :=
  match o with Some a => POk a | None => PRaise e end.

(* ------------------------------------------------------------------ *)
(** ** Python string formatting used by the sources *)

Module PyStr.

Definition digit_char (d : Z) : ascii :=
  match d with
  | 0 => "0" | 1 => "1" | 2 => "2" | 3 => "3" | 4 => "4" | 5 => "5"
  | 6 => "6" | 7 => "7" | 8 => "8" | 9 => "9" | 10 => "a" | 11 => "b"
  | 12 => "c" | 13 => "d" | 14 => "e" | _ => "f"
  end%char.

(** Digits of [n >= 0] in base [b] (2 <= b <= 16), most significant first;
    [fuel] bounds the number of digits. *)
Fixpoint digits_aux (fuel : nat) (b n : Z) (acc : string) : string :=
  match fuel with
  | O => acc
  | S f =>
      let acc' := String (digit_char (n mod b)) acc in
      if n <? b then acc' else digits_aux f b (n / b) acc'
  end.

Definition digits (b n : Z) : string :=
  digits_aux (S (Z.to_nat (Z.log2 (Z.abs n + 1)))) b n EmptyString.

(** [str(n)] for a Python int. *)
Definition str_int (n : Z) : string :=
  if n <? 0 then String "-" (digits 10 (- n)) else digits 10 n.

(** [hex(n)] for a Python int. *)
Definition hex (n : Z) : string :=
  if n <? 0 then "-0x" ++ digits 16 (- n) else "0x" ++ digits 16 n.

(** [f"{n:0{w}x}"]: hexadecimal, zero padded to width [w] (the sign
    counts in the width). *)
Definition pad_zeros (w : nat) (s : string) : string :=
  String.concat EmptyString (repeat "0" (w - String.length s)) ++ s.

Definition format_0x (w : nat) (n : Z) : string :=
  if n <? 0 then String "-" (pad_zeros (w - 1) (digits 16 (- n)))
  else pad_zeros w (digits 16 n).

Definition char_value (c : ascii) : option Z :=
  let n := Z.of_nat (nat_of_ascii c) in
  if (48 <=? n) && (n <=? 57) then Some (n - 48)
  else if (97 <=? n) && (n <=? 102) then Some (n - 87)
  else if (65 <=? n) && (n <=? 70) then Some (n - 55)
  else None.

Fixpoint parse_digits (b : Z) (s : string) (acc : Z) : option Z :=
  match s with
  | EmptyString => Some acc
  | String c s' =>
      match char_value c with
      | Some d => if d <? b then parse_digits b s' (acc * b + d) else None
      | None => None
      end
  end.

Definition parse_nonempty (b : Z) (s : string) : option Z :=
  match s with EmptyString => None | _ => parse_digits b s 0 end.

(** [int(s, 16)]: an optional sign, an optional [0x]/[0X] prefix, then at
    least one hexadecimal digit (surrounding whitespace and digit
    separators are not modelled). *)
Definition int_hex_unsigned (s : string) : option Z :=
  match s with
  | String "0" (String c rest) =>
      if (Ascii.eqb c "x" || Ascii.eqb c "X")%bool
      then parse_nonempty 16 rest else parse_nonempty 16 s
  | _ => parse_nonempty 16 s
  end.

Definition int_hex (s : string) : option Z :=
  match s with
  | String "-" rest => Z.opp <$> int_hex_unsigned rest
  | String "+" rest => int_hex_unsigned rest
  | _ => int_hex_unsigned s
  end.

(** [int(s)] for a decimal string (optional sign). *)
Definition int_dec (s : string) : option Z :=
  match s with
  | String "-" rest => Z.opp <$> parse_nonempty 10 rest
  | String "+" rest => parse_nonempty 10 rest
  | _ => parse_nonempty 10 s
  end.

End PyStr.

(* ------------------------------------------------------------------ *)
(** ** The Maat interface used by the sources *)

Module Maat.

(** [maat.Value]: a symbolic variable or a concrete constant, with its
    size in bits. *)
Inductive Value :=
| Var (size : Z) (name : string)
| Cst (size : Z) (v : Z).

(** [maat.VarContext]: variable name to concrete value. *)
Abbreviation VarContext := (gmap string Z).

(** [Value.as_uint(ctx)]; Maat raises when the value is not concrete in
    [ctx] (the argument-less [as_uint()] uses an empty context). *)
Definition as_uint (ctx : VarContext) (v : Value) : option Z :=
  match v with
  | Cst sz n => Some (n mod 2 ^ sz)
  | Var sz name => (fun n => n mod 2 ^ sz) <$> ctx !! name
  end.

(** [maat.TX]: kinds of EVM transactions. *)
Inductive TX := CALL | CALLCODE | DELEGATECALL | CREATE | CREATE2.

Definition TX_eqb (a b : TX) : bool :=
  match a, b with
  | CALL, CALL | CALLCODE, CALLCODE | DELEGATECALL, DELEGATECALL
  | CREATE, CREATE | CREATE2, CREATE2 => true
  | _, _ => false
  end.

(** [maat.TX_RES]: exit statuses of an EVM transaction. *)
Definition TX_RES_STOP : Z := 0.
Definition TX_RES_RETURN : Z := 1.
Definition TX_RES_REVERT : Z := 2.
Definition TX_RES_INVALID : Z := 3.

(** [maat.STOP]: why [MaatEngine.run] returned. *)
Inductive STOP :=
| EXIT
| NONE
| HOOK
| ERROR
| FATAL.

Definition STOP_eqb (a b : STOP) : bool :=
  match a, b with
  | EXIT, EXIT | NONE, NONE | HOOK, HOOK | ERROR, ERROR | FATAL, FATAL => true
  | _, _ => false
  end.

(** [transaction.result]. *)
Record TxResult := mkTxResult {
  return_data : list Value;
  return_data_size : Z;
}.

Definition empty_result : TxResult := mkTxResult [] 0.

(** [maat.EVMTransaction]. The seven-argument constructor used by the
    sources leaves [type] at CALL, [ret_offset]/[ret_len] at zero and no
    result yet. *)
Record EVMTransaction := mkEVMTransaction {
  origin : Value;
  sender : Value;
  recipient : Z;
  value : Value;
  data : list Value;
  gas_price : Value;
  gas_limit : Value;
  type : TX;
  ret_offset : Value;
  ret_len : Value;
  result : TxResult;
}.

Definition EVMTransaction7 (origin sender : Value) (recipient : Z)
    (value : Value) (data : list Value) (gas_price gas_limit : Value)
    : EVMTransaction :=
  mkEVMTransaction origin sender recipient value data gas_price gas_limit
    CALL (Cst 256 0) (Cst 256 0) empty_result.

Definition set_result (r : TxResult) (t : EVMTransaction) : EVMTransaction :=
  mkEVMTransaction (origin t) (sender t) (recipient t) (value t) (data t)
    (gas_price t) (gas_limit t) (type t) (ret_offset t) (ret_len t) r.

(** [contract(engine)]: the EVM contract view of an engine. The memory is
    observed through the [write_buffer] calls made on it, newest first. *)
Record EVMContract := mkEVMContract {
  transaction : EVMTransaction;
  outgoing_transaction : option EVMTransaction;
  result_from_last_call : option TxResult;
  stack : list Value;                      (* top first *)
  memory : list (Value * list Value);      (* write_buffer log, newest first *)
}.

Definition set_outgoing (o : option EVMTransaction) (c : EVMContract) : EVMContract :=
  mkEVMContract (transaction c) o (result_from_last_call c) (stack c) (memory c).
Definition set_rflc (r : option TxResult) (c : EVMContract) : EVMContract :=
  mkEVMContract (transaction c) (outgoing_transaction c) r (stack c) (memory c).
Definition set_transaction (t : EVMTransaction) (c : EVMContract) : EVMContract :=
  mkEVMContract t (outgoing_transaction c) (result_from_last_call c) (stack c) (memory c).
(** [stack.push(v)] *)
Definition stack_push (v : Value) (c : EVMContract) : EVMContract :=
  mkEVMContract (transaction c) (outgoing_transaction c) (result_from_last_call c)
    (v :: stack c) (memory c).
(** [memory.write_buffer(addr, buf)] *)
Definition write_buffer (addr : Value) (buf : list Value) (c : EVMContract) : EVMContract :=
  mkEVMContract (transaction c) (outgoing_transaction c) (result_from_last_call c)
    (stack c) ((addr, buf) :: memory c).

(** The answer of the engine to one [run()] call: [info.stop],
    [info.exit_status], and what the run leaves in the contract view
    ([outgoing_transaction] and [transaction.result]). *)
Record EngineEvent := mkEngineEvent {
  ev_stop : STOP;
  ev_exit_status : Z;
  ev_outgoing : option EVMTransaction;
  ev_result : TxResult;
}.

(** [engine.info] *)
Record Info := mkInfo {
  stop : STOP;
  exit_status : Z;
}.

End Maat.

Import Maat.

(* ------------------------------------------------------------------ *)
(** ** world.py: data model *)

Module World.

(** [AbstractTx] (a frozen dataclass). *)
Record AbstractTx := mkAbstractTx {
  tx : EVMTransaction;
  block_num_inc : Value;
  block_timestamp_inc : Value;
  ctx : VarContext;
}.

(** [EVMRuntime]: the contract view of the runtime's engine, and the
    snapshot taken when the runtime was created. *)
Record EVMRuntime := mkEVMRuntime {
  engine : EVMContract;
  init_state : EVMContract;
}.

(** [ContractRunner]. [code] is the bytecode held by the runner's root
    engine (whose memory every runtime of the runner shares). *)
Record ContractRunner := mkContractRunner {
  address : Z;
  nonce : Z;
  runtime_stack : list EVMRuntime;   (* top first *)
  initialized : bool;
  code : list Value;
}.

(** Calls made to the attached monitors, newest first. *)
Inductive event :=
| on_transaction (t : EVMTransaction)
| on_new_runtime (rt : EVMRuntime).

(** [EVMWorld]. [vars] is the variable context of the root engine, shared
    by every engine of the world; [block_log] records the block number and
    timestamp increments applied to the root engine (newest first);
    [engine_clock] counts the [EVMRuntime.run] calls made so far. *)
Record EVMWorld := mkEVMWorld {
  contracts : gmap Z ContractRunner;
  call_stack : list Z;               (* top first *)
  tx_queue : list AbstractTx;        (* head is the next transaction *)
  current_tx : option AbstractTx;
  current_tx_num : nat;
  vars : VarContext;
  block_log : list (Value * Value);
  events : list event;
  engine_clock : nat;
}.

Definition with_contracts f w := mkEVMWorld (f (contracts w)) (call_stack w)
  (tx_queue w) (current_tx w) (current_tx_num w) (vars w) (block_log w) (events w) (engine_clock w).
Definition with_call_stack f w := mkEVMWorld (contracts w) (f (call_stack w))
  (tx_queue w) (current_tx w) (current_tx_num w) (vars w) (block_log w) (events w) (engine_clock w).
Definition with_tx_queue f w := mkEVMWorld (contracts w) (call_stack w)
  (f (tx_queue w)) (current_tx w) (current_tx_num w) (vars w) (block_log w) (events w) (engine_clock w).
Definition with_current_tx t w := mkEVMWorld (contracts w) (call_stack w)
  (tx_queue w) t (current_tx_num w) (vars w) (block_log w) (events w) (engine_clock w).
Definition with_current_tx_num f w := mkEVMWorld (contracts w) (call_stack w)
  (tx_queue w) (current_tx w) (f (current_tx_num w)) (vars w) (block_log w) (events w) (engine_clock w).
Definition with_vars f w := mkEVMWorld (contracts w) (call_stack w)
  (tx_queue w) (current_tx w) (current_tx_num w) (f (vars w)) (block_log w) (events w) (engine_clock w).
Definition with_block_log f w := mkEVMWorld (contracts w) (call_stack w)
  (tx_queue w) (current_tx w) (current_tx_num w) (vars w) (f (block_log w)) (events w) (engine_clock w).
Definition with_events f w := mkEVMWorld (contracts w) (call_stack w)
  (tx_queue w) (current_tx w) (current_tx_num w) (vars w) (block_log w) (f (events w)) (engine_clock w).
Definition with_engine_clock f w := mkEVMWorld (contracts w) (call_stack w)
  (tx_queue w) (current_tx w) (current_tx_num w) (vars w) (block_log w) (events w) (f (engine_clock w)).

Definition with_nonce f r := mkContractRunner (address r) (f (nonce r))
  (runtime_stack r) (initialized r) (code r).
Definition with_runtime_stack f r := mkContractRunner (address r) (nonce r)
  (f (runtime_stack r)) (initialized r) (code r).
Definition with_initialized b r := mkContractRunner (address r) (nonce r)
  (runtime_stack r) b (code r).
Definition with_code c r := mkContractRunner (address r) (nonce r)
  (runtime_stack r) (initialized r) c.

(** [ContractRunner.current_runtime] ([runtime_stack[-1]]). *)
Definition current_runtime (r : ContractRunner) : option EVMRuntime :=
  head (runtime_stack r).

(** The nonce of every deployed contract. *)
Definition nonces (w : EVMWorld) : gmap Z Z := nonce <$> contracts w.

End World.

Import World.

(* ------------------------------------------------------------------ *)
(** ** world.py: the operations of EVMWorld *)

Module Run.

Section Orchestrator.

(** The engine: the answer of the [n]-th [EVMRuntime.run] call. *)
Variable engine_step : nat -> EngineEvent.
(** [util.compute_new_contract_addr(deployer, nonce)] (RLP and Keccak,
    outside the orchestrator). *)
Variable compute_new_contract_addr : Z -> Z -> Z.

Abbreviation M := (st EVMWorld).

(** [self.contracts[a]] *)
Definition lookup_contract (a : Z) : M ContractRunner :=
  w <- get_state ;; lift_opt KeyError (contracts w !! a).

(** Update the runner stored at [a] (Python mutates the runner object,
    which is reached through [self.contracts]). *)
Definition update_runner (a : Z) (f : ContractRunner -> ContractRunner) : M unit :=
  r <- lookup_contract a ;;
  modify (with_contracts (fun cs => <[a := f r]> cs)).

(** Run a computation on the contract view of the top runtime of the
    runner at [a] ([contract(self.contracts[a].current_runtime.engine)]);
    its effects are kept also when it raises. *)
Definition on_engine {A} (a : Z) (m : st EVMContract A) : M A :=
  r <- lookup_contract a ;;
  rt <- lift_opt IndexError (current_runtime r) ;;
  let store c := with_contracts (fun cs =>
        <[a := with_runtime_stack (fun s => mkEVMRuntime c (init_state rt) :: tail s) r]> cs) in
  fun w => match m (engine rt) with
           | Ok x c => Ok x (store c w)
           | Raise e c => Raise e (store c w)
           end.

(** [current_contract]: the address on top of the call stack and its
    runner. *)
Definition current_address : M Z :=
  w <- get_state ;;
  match call_stack w with
  | [] => throw (WorldException NoCurrentContract)
  | a :: _ => ret a
  end.

Definition current_contract : M ContractRunner :=
  a <- current_address ;; lookup_contract a.

(** [ContractRunner.__init__] with the file loader reading the init
    bytecode from [args]. *)
Definition ContractRunner_new (address deployer : Z) (args : list (list Value))
    (run_init_bytecode : bool) : ContractRunner :=
  mkContractRunner address 1 [] run_init_bytecode (concat args).

(** [EVMWorld.deploy] *)
Definition deploy (address deployer : Z) (args : list (list Value))
    (run_init_bytecode : bool) : M ContractRunner :=
  w <- get_state ;;
  match contracts w !! address with
  | Some _ => throw (WorldException AddressInUse)
  | None =>
      let runner := ContractRunner_new address deployer args run_init_bytecode in
      _ <- modify (with_contracts (fun cs => <[address := runner]> cs)) ;;
      ret runner
  end.

(** [EVMRuntime.__init__] with a transaction: the contract view of the
    fresh engine of [new_evm_runtime] gets [tx.tx], then the snapshot. *)
Definition EVMRuntime_new (t : AbstractTx) : EVMRuntime :=
  let c := mkEVMContract (tx t) None None [] [] in
  mkEVMRuntime c c.

(** [EVMWorld._push_runtime(runner, tx)] for the runner stored at [a]:
    [engine.vars.update_from(tx.ctx)] on the shared variable context, push
    of the new runtime, [new_runtime] event. *)
Definition push_runtime (a : Z) (t : AbstractTx) : M EVMRuntime :=
  _ <- modify (with_vars (fun v => ctx t ∪ v)) ;;
  let rt := EVMRuntime_new t in
  _ <- update_runner a (with_runtime_stack (fun s => rt :: s)) ;;
  _ <- modify (with_events (fun e => on_new_runtime rt :: e)) ;;
  ret rt.

(** [EVMWorld.next_transaction] *)
Definition next_transaction : M AbstractTx :=
  w <- get_state ;;
  t <- lift_opt IndexError (head (tx_queue w)) ;;
  _ <- modify (with_tx_queue tail) ;;
  ret t.

(** [EVMRuntime.run] on the current runtime: the engine answers, the
    contract view records the outgoing transaction and the result. *)
Definition run_current : M (Info * EVMRuntime) :=
  a <- current_address ;;
  r <- lookup_contract a ;;
  rt <- lift_opt IndexError (current_runtime r) ;;
  w <- get_state ;;
  let ev := engine_step (engine_clock w) in
  let c := engine rt in
  let c' := set_outgoing (ev_outgoing ev)
              (set_transaction (set_result (ev_result ev) (transaction c)) c) in
  let rt' := mkEVMRuntime c' (init_state rt) in
  _ <- modify (with_contracts (fun cs =>
         <[a := with_runtime_stack (fun s => rt' :: tail s) r]> cs)) ;;
  _ <- modify (with_engine_clock S) ;;
  ret (mkInfo (ev_stop ev) (ev_exit_status ev), rt').

(** [EVMRuntime.revert] on the current runtime. *)
Definition revert_current : M unit :=
  a <- current_address ;;
  r <- lookup_contract a ;;
  rt <- lift_opt IndexError (current_runtime r) ;;
  modify (with_contracts (fun cs =>
    <[a := with_runtime_stack (fun s => mkEVMRuntime (init_state rt) (init_state rt) :: tail s) r]> cs)).

(** [EVMWorld._handle_CREATE] *)
Definition handle_CREATE : M unit :=
  cur <- current_contract ;;
  rt <- lift_opt IndexError (current_runtime cur) ;;
  out_tx <- lift_opt AttributeError (outgoing_transaction (engine rt)) ;;
  w <- get_state ;;
  deployer <- lift_opt MaatError (as_uint (vars w) (sender out_tx)) ;;
  new_contract_addr <-
    (if TX_eqb (type out_tx) CREATE then
       cur <- current_contract ;;
       ret (compute_new_contract_addr deployer (nonce cur))
     else throw (WorldException TxTypeNotImplemented)) ;;
  a <- current_address ;;
  _ <- update_runner a (with_nonce (fun n => n + 1)) ;;
  contract_runner <- deploy new_contract_addr deployer [data out_tx] false ;;
  w <- get_state ;;
  ct <- lift_opt AttributeError (current_tx w) ;;
  let create_tx := mkAbstractTx out_tx (block_num_inc ct) (block_timestamp_inc ct) ∅ in
  _ <- push_runtime new_contract_addr create_tx ;;
  modify (with_call_stack (fun s => new_contract_addr :: s)).

(** [EVMWorld._handle_CREATE_after] *)
Definition handle_CREATE_after (succeeded : bool) : M unit :=
  cur <- current_contract ;;
  rt <- lift_opt IndexError (current_runtime cur) ;;
  let current_engine := engine rt in
  create_result <-
    (if succeeded then
       a <- current_address ;;
       _ <- update_runner a (with_initialized true) ;;
       cur <- current_contract ;;
       let create_result := address cur in
       (* set_evm_bytecode on the current engine, whose memory is the
          runner's *)
       _ <- update_runner a (with_code (return_data (result (transaction current_engine)))) ;;
       ret create_result
     else
       cur <- current_contract ;;
       _ <- modify (with_contracts (fun cs => delete (address cur) cs)) ;;
       ret 0) ;;
  w <- get_state ;;
  match call_stack w with
  | _ :: a2 :: _ => on_engine a2 (modify (stack_push (Cst 256 create_result)))
  | _ => ret tt
  end.

(** [EVMWorld._handle_CALL] *)
Definition handle_CALL : M unit :=
  cur <- current_contract ;;
  rt <- lift_opt IndexError (current_runtime cur) ;;
  out_tx <- lift_opt AttributeError (outgoing_transaction (engine rt)) ;;
  w <- get_state ;;
  contract_runner <- lift_opt (WorldException NoContractForCall)
                       (contracts w !! recipient out_tx) ;;
  ct <- lift_opt AttributeError (current_tx w) ;;
  let t := mkAbstractTx out_tx (block_num_inc ct) (block_timestamp_inc ct) ∅ in
  _ <- push_runtime (recipient out_tx) t ;;
  modify (with_call_stack (fun s => address contract_runner :: s)).

(** [EVMWorld._handle_CALL_after], on the caller's contract view. *)
Definition handle_CALL_after (succeeded : bool) : st EVMContract unit :=
  _ <- modify (stack_push (Cst 256 (if succeeded then 1 else 0))) ;;
  c <- get_state ;;
  out <- lift_opt AttributeError (outgoing_transaction c) ;;
  ret_len <- lift_opt MaatError (as_uint ∅ (ret_len out)) ;;
  rflc <- lift_opt AttributeError (result_from_last_call c) ;;
  if ret_len <? return_data_size rflc then
    throw (WorldException ReturnBufferOverflow)
  else
    modify (write_buffer (ret_offset out) (return_data rflc)).

(** The top-level part of an iteration of the loop of [EVMWorld.run] when
    the call stack is empty: dequeue the next transaction and start it. *)
Definition start_transaction : M unit :=
  t <- next_transaction ;;
  _ <- modify (with_current_tx (Some t)) ;;
  _ <- modify (with_current_tx_num S) ;;
  let contract_addr := recipient (tx t) in
  w <- get_state ;;
  _ <- lift_opt (WorldException NoContractAtRecipient) (contracts w !! contract_addr) ;;
  _ <- push_runtime contract_addr t ;;
  _ <- modify (with_call_stack (fun s => contract_addr :: s)) ;;
  _ <- modify (with_block_log (fun l => (block_num_inc t, block_timestamp_inc t) :: l)) ;;
  r <- lookup_contract contract_addr ;;
  rt <- lift_opt IndexError (current_runtime r) ;;
  modify (with_events (fun e => on_transaction (transaction (engine rt)) :: e)).

(** The [STOP.EXIT] branch of [EVMWorld.run]; [rt] is the runtime that
    just ran. *)
Definition exit_branch (info : Info) (rt : EVMRuntime) : M unit :=
  let succeeded := (exit_status info =? TX_RES_STOP) || (exit_status info =? TX_RES_RETURN) in
  w <- get_state ;;
  is_msg_call_return <-
    (match call_stack w with
     | _ :: a2 :: _ =>
         _ <- on_engine a2 (modify (set_rflc (Some (result (transaction (engine rt)))))) ;;
         ret true
     | _ => ret false
     end) ;;
  _ <- (if exit_status info =? TX_RES_REVERT then revert_current else ret tt) ;;
  cur <- current_contract ;;
  _ <- (if negb (initialized cur) then handle_CREATE_after succeeded else ret tt) ;;
  (* self.current_contract.pop_runtime() *)
  a <- current_address ;;
  cur <- lookup_contract a ;;
  _ <- lift_opt IndexError (current_runtime cur) ;;
  _ <- update_runner a (with_runtime_stack tail) ;;
  _ <- (if is_msg_call_return then
          w <- get_state ;;
          a2 <- lift_opt IndexError (nth_error (call_stack w) 1) ;;
          on_engine a2
            (c <- get_state ;;
             out <- lift_opt AttributeError (outgoing_transaction c) ;;
             _ <- (if TX_eqb (type out) CALL || TX_eqb (type out) CALLCODE
                      || TX_eqb (type out) DELEGATECALL
                   then handle_CALL_after succeeded else ret tt) ;;
             modify (set_outgoing None))
        else ret tt) ;;
  w <- get_state ;;
  _ <- lift_opt IndexError (head (call_stack w)) ;;
  modify (with_call_stack tail).

(** Dispatch of an outgoing transaction ([STOP.NONE] branch). *)
Definition dispatch_outgoing (out_tx : EVMTransaction) : M unit :=
  if TX_eqb (type out_tx) CREATE || TX_eqb (type out_tx) CREATE2 then handle_CREATE
  else if TX_eqb (type out_tx) CALL then handle_CALL
  else throw (WorldException UnsupportedTxType).

(** [if not self.call_stack: ...]: start the next queued transaction when
    no frame is active. *)
Definition start_if_idle : M unit :=
  w <- get_state ;;
  match call_stack w with [] => start_transaction | _ => ret tt end.

(** What the loop does with the answer [info] of the runtime [rt] it just
    ran: [true] to go on, [false] for the [break], and the stop reason. *)
Definition step_branch (p : Info * EVMRuntime) : M (bool * STOP) :=
  let info := fst p in
  let rt := snd p in
  if STOP_eqb (stop info) EXIT then
    _ <- exit_branch info rt ;; ret (true, stop info)
  else
    match stop info, outgoing_transaction (engine rt) with
    | NONE, Some out_tx =>
        _ <- modify (with_current_tx_num S) ;;
        _ <- dispatch_outgoing out_tx ;;
        ret (true, stop info)
    | _, _ => ret (false, stop info)
    end.

(** One iteration of the [while] loop of [EVMWorld.run]. *)
Definition loop_body : M (bool * STOP) :=
  _ <- start_if_idle ;;
  p <- run_current ;;
  step_branch p.

Definition nonempty {A} (l : list A) : bool :=
  match l with [] => false | _ => true end.

(** [self.has_pending_transactions or self.call_stack] *)
Definition has_work (w : EVMWorld) : bool :=
  nonempty (tx_queue w) || nonempty (call_stack w).

(** The [while] loop, run for at most [fuel] iterations ([None] when the
    fuel runs out); [last] is the stop reason of the previous iteration. *)
Fixpoint run_loop (fuel : nat) (last : STOP) : M (option STOP) :=
  match fuel with
  | O => ret None
  | S f =>
      w <- get_state ;;
      if has_work w then
        p <- loop_body ;;
        if fst p then run_loop f (snd p) else ret (Some (snd p))
      else ret (Some last)
  end.

(** [EVMWorld.run]. The loop runs at least once, so the initial [last] is
    never returned. *)
Definition run (fuel : nat) : M (option STOP) :=
  w <- get_state ;;
  if has_work w then run_loop fuel EXIT
  else throw (WorldException NoMoreTransactions).

End Orchestrator.

(** An engine answer that makes the loop take the sub-call branch: the
    engine stopped with [STOP.NONE] and left an outgoing transaction. *)
Definition is_subcall (ev : EngineEvent) : bool :=
  STOP_eqb (ev_stop ev) NONE && match ev_outgoing ev with Some _ => true | None => false end.

(** Number of sub-call answers among the first [n] engine answers. *)
Fixpoint subcalls_upto (engine_step : nat -> EngineEvent) (n : nat) : nat :=
  match n with
  | O => 0
  | S k => subcalls_upto engine_step k + (if is_subcall (engine_step k) then 1 else 0)
  end.

End Run.

(* ------------------------------------------------------------------ *)
(** ** interface.py: JSON values and the Python operations on them *)

Module Json.

Local Open Scope string_scope.
#[local] Set Warnings "-register-all".

(** A JSON document as [json.loads] reads it; objects keep their key/value
    pairs in file order. *)
Inductive json :=
| JNull
| JBool (b : bool)
| JInt (z : Z)
| JStr (s : string)
| JList (l : list json)
| JObj (kv : list (string * json)).

(** A subscript: [x["k"]] or [x[i]]. *)
Inductive key := KStr (s : string) | KInt (i : Z).

(** [d[k] = v] on a Python dict: the value of an existing key is replaced
    in place, a new key is appended. *)
Fixpoint assoc_set {V} (kv : list (string * V)) (k : string) (v : V) : list (string * V) :=
  match kv with
  | [] => [(k, v)]
  | (k', v') :: r => if String.eqb k k' then (k, v) :: r else (k', v') :: assoc_set r k v
  end.

Fixpoint assoc_get {V} (kv : list (string * V)) (k : string) : option V :=
  match kv with
  | [] => None
  | (k', v') :: r => if String.eqb k k' then Some v' else assoc_get r k
  end.

(** The dict built by [json.loads] from the pairs of an object (a repeated
    key keeps its first position and its last value). *)
Definition dict_of_pairs {V} (kv : list (string * V)) : list (string * V) :=
  fold_left (fun d p => assoc_set d (fst p) (snd p)) kv [].

(** [l[i]] on a Python sequence (negative indices count from the end). *)
Definition py_index {A} (l : list A) (i : Z) : option A :=
  (if i <? 0 then
    (if Z.of_nat (List.length l) + i <? 0 then None
     else nth_error l (Z.to_nat (Z.of_nat (List.length l) + i)))
  else nth_error l (Z.to_nat i))%Z.

(** [x[k]] on a JSON value; indexing a string yields a one-character
    string. *)
Definition jgetitem (j : json) (k : key) : pyres json :=
  match j, k with
  | JObj kv, KStr s => popt KeyError (assoc_get (dict_of_pairs kv) s)
  | JObj _, KInt _ => PRaise KeyError
  | JList l, KInt i => popt IndexError (py_index l i)
  | JStr s, KInt i =>
      match py_index (list_ascii_of_string s) i with
      | Some c => POk (JStr (String c EmptyString))
      | None => PRaise IndexError
      end
  | _, _ => PRaise TypeError
  end.

(** [len(x)] *)
Definition py_len (j : json) : pyres Z :=
  match j with
  | JList l => POk (Z.of_nat (List.length l))
  | JStr s => POk (Z.of_nat (String.length s))
  | JObj kv => POk (Z.of_nat (List.length (dict_of_pairs kv)))
  | _ => PRaise TypeError
  end.

(** [for x in j]: the elements of a list, the characters of a string, the
    keys of a dict. *)
Definition json_iter (j : json) : pyres (list json) :=
  match j with
  | JList l => POk l
  | JStr s => POk (map (fun c => JStr (String c EmptyString)) (list_ascii_of_string s))
  | JObj kv => POk (map (fun p => JStr (fst p)) (dict_of_pairs kv))
  | _ => PRaise TypeError
  end.

(** [int(x)] *)
Definition py_int (j : json) : pyres Z :=
  match j with
  | JInt z => POk z
  | JBool b => POk (if b then 1 else 0)
  | JStr s => popt ValueError (PyStr.int_dec s)
  | _ => PRaise TypeError
  end.

(** [int(x, 16)] *)
Definition py_int16 (j : json) : pyres Z :=
  match j with
  | JStr s => popt ValueError (PyStr.int_hex s)
  | _ => PRaise TypeError
  end.

(** [repr(x)] (strings are quoted with single quotes). *)
Fixpoint py_repr (j : json) : string :=
  match j with
  | JNull => "None"
  | JBool true => "True"
  | JBool false => "False"
  | JInt z => PyStr.str_int z
  | JStr s => "'" ++ s ++ "'"
  | JList l => "[" ++ String.concat ", " (map py_repr l) ++ "]"
  | JObj kv =>
      "{" ++ String.concat ", " (map (fun (p : string * json) => "'" ++ fst p ++ "': " ++ py_repr (snd p)) kv) ++ "}"
  end.

(** [str(x)], i.e. [f"{x}"] *)
Definition py_str (j : json) : string :=
  match j with JStr s => s | _ => py_repr j end.

(** [x == s] for a string [s]. *)
Definition is_str (j : json) (s : string) : bool :=
  match j with JStr s' => String.eqb s' s | _ => false end.

(** A list comprehension [[f(x) for x in l]]: the first exception
    raised by [f] propagates. *)
Fixpoint pmap {A B} (f : A -> pyres B) (l : list A) : pyres (list B) :=
  match l with
  | [] => POk []
  | x :: r => y <-- f x ;; ys <-- pmap f r ;; POk (y :: ys)
  end.

End Json.

Import Json.

(* ------------------------------------------------------------------ *)
(** ** interface.py: from Echidna JSON to symbolic transactions *)

Module Load.

Local Open Scope string_scope.
#[local] Set Warnings "-register-all".

(** The value part of a translated argument: a Python int, the bytes
    decoded by [echidna_parse_bytes], the JSON value itself ([AbiBool]), or
    a list of values. *)
Inductive pyarg :=
| AInt (z : Z)
| ABytes (b : list Z)
| AJson (j : json)
| AList (l : list pyarg).

(** The helpers of [optik.common.util] and [optik.common.abi] used by the
    bridge (outside the two modules embedded here). [function_call]
    returns the call data and the variable context after it registered the
    seed values of the argument variables. *)
Class UtilFns := {
  twos_complement_convert : Z -> json -> pyres Z;
  int_to_bool : Z -> bool;
  echidna_parse_bytes : json -> pyres (list Z);
  echidna_encode_bytes : list Z -> string;
}.

Class AbiFns := {
  function_call : json -> string -> VarContext -> string -> list pyarg ->
                  pyres (list Value * VarContext);
}.

Section Translate.
Context `{UtilFns}.

(** [parse_array], with the translation of one element as a parameter. *)
Definition parse_array (tr : json -> pyres (string * pyarg)) (arr : json)
    : pyres (string * list pyarg) :=
  elts <-- json_iter arr ;;
  el_arr <-- pmap tr elts ;;
  first <-- popt IndexError (head el_arr) ;;
  let arr_type := fst first in
  POk (arr_type, map snd el_arr).

(** [parse_tuple] *)
Definition parse_tuple (tr : json -> pyres (string * pyarg)) (tup : json)
    : pyres (list string * list pyarg) :=
  elts <-- json_iter tup ;;
  el_tup <-- pmap tr elts ;;
  POk (map fst el_tup, map snd el_tup).

(** [translate_argument]; [fuel] bounds the nesting of the recursion
    (Python raises [RecursionError] past its recursion limit). *)
Fixpoint translate_argument_rec (fuel : nat) (arg : json) : pyres (string * pyarg) :=
  match fuel with
  | O => PRaise RecursionError
  | S f =>
      argType <-- jgetitem arg (KStr "tag") ;;
      if is_str argType "AbiUInt" then
        c <-- jgetitem arg (KStr "contents") ;;
        bits <-- jgetitem c (KInt 0) ;;
        v <-- jgetitem c (KInt 1) ;;
        val <-- py_int v ;;
        POk ("uint" ++ py_str bits, AInt val)
      else if is_str argType "AbiInt" then
        c <-- jgetitem arg (KStr "contents") ;;
        bits <-- jgetitem c (KInt 0) ;;
        v <-- jgetitem c (KInt 1) ;;
        val <-- py_int v ;;
        POk ("int" ++ py_str bits, AInt val)
      else if is_str argType "AbiAddress" then
        c <-- jgetitem arg (KStr "contents") ;;
        val <-- py_int16 c ;;
        POk ("address", AInt val)
      else if is_str argType "AbiBytes" then
        c <-- jgetitem arg (KStr "contents") ;;
        byteLen <-- jgetitem c (KInt 0) ;;
        b <-- jgetitem c (KInt 1) ;;
        val <-- echidna_parse_bytes b ;;
        POk ("bytes" ++ py_str byteLen, ABytes val)
      else if is_str argType "AbiBool" then
        val <-- jgetitem arg (KStr "contents") ;;
        POk ("bool", AJson val)
      else if is_str argType "AbiArray" then
        c <-- jgetitem arg (KStr "contents") ;;
        num_elems <-- jgetitem c (KInt 0) ;;
        array <-- jgetitem c (KInt 2) ;;
        r <-- parse_array (translate_argument_rec f) array ;;
        POk (fst r ++ "[" ++ py_str num_elems ++ "]", AList (snd r))
      else if is_str argType "AbiArrayDynamic" then
        c <-- jgetitem arg (KStr "contents") ;;
        array <-- jgetitem c (KInt 1) ;;
        r <-- parse_array (translate_argument_rec f) array ;;
        POk (fst r ++ "[]", AList (snd r))
      else if is_str argType "AbiTuple" then
        contents <-- jgetitem arg (KStr "contents") ;;
        r <-- parse_tuple (translate_argument_rec f) contents ;;
        POk ("(" ++ String.concat "," (fst r) ++ ")", AList (snd r))
      else PRaise (EchidnaException ("Unsupported argument type: " ++ py_str argType))
  end.

Definition recursion_limit : nat := 1000.

Definition translate_argument (arg : json) : pyres (string * pyarg) :=
  translate_argument_rec recursion_limit arg.

Context `{AbiFns}.

(** [load_tx(tx, tx_name)]. [VarContext.set(name, value, size)] binds the
    name to the value. *)
Definition load_tx (tx : json) (tx_name : string) : pyres AbstractTx :=
  call <-- jgetitem tx (KStr "_call") ;;
  tag <-- jgetitem call (KStr "tag") ;;
  if negb (is_str tag "SolCall") then
    PRaise (EchidnaException ("Unsupported transaction type: '" ++ py_str tag ++ "'"))
  else
    cs <-- jgetitem call (KStr "contents") ;;
    func_name <-- jgetitem cs (KInt 0) ;;
    n <-- py_len cs ;;
    args <-- (if (1 <? n)%Z then
                a <-- jgetitem cs (KInt 1) ;;
                elts <-- json_iter a ;;
                pmap translate_argument elts
              else POk []) ;;
    let arg_types := map fst args in
    let arg_values := map snd args in
    let func_signature := "(" ++ String.concat "," arg_types ++ ")" in
    r <-- function_call func_name func_signature ∅ tx_name arg_values ;;
    let call_data := fst r in
    let ctx := snd r in
    let block_num_inc := Var 256 (tx_name ++ "_block_num_inc") in
    let block_timestamp_inc := Var 256 (tx_name ++ "_block_timestamp_inc") in
    delay <-- jgetitem tx (KStr "_delay") ;;
    d1 <-- jgetitem delay (KInt 1) ;;
    bn <-- py_int16 d1 ;;
    let ctx := <[tx_name ++ "_block_num_inc" := bn]> ctx in
    delay <-- jgetitem tx (KStr "_delay") ;;
    d0 <-- jgetitem delay (KInt 0) ;;
    ts <-- py_int16 d0 ;;
    let ctx := <[tx_name ++ "_block_timestamp_inc" := ts]> ctx in
    let sender := Var 160 (tx_name ++ "_sender") in
    src <-- jgetitem tx (KStr "_src") ;;
    s <-- py_int16 src ;;
    let ctx := <[tx_name ++ "_sender" := s]> ctx in
    let value := Var 256 (tx_name ++ "_value") in
    jv <-- jgetitem tx (KStr "_value") ;;
    v <-- py_int16 jv ;;
    let ctx := <[tx_name ++ "_value" := v]> ctx in
    jgas <-- jgetitem tx (KStr "_gas'") ;;
    gl <-- py_int16 jgas ;;
    let gas_limit := Cst 256 gl in
    jgp <-- jgetitem tx (KStr "_gasprice'") ;;
    gp <-- py_int16 jgp ;;
    let gas_price := Cst 256 gp in
    jdst <-- jgetitem tx (KStr "_dst") ;;
    recipient <-- py_int16 jdst ;;
    POk (mkAbstractTx
           (EVMTransaction7 sender sender recipient value call_data gas_price gas_limit)
           block_num_inc block_timestamp_inc ctx).

End Translate.

End Load.

Import Load.

(* ------------------------------------------------------------------ *)
(** ** interface.py: Python objects on a heap, for the in-place updates *)

Module Heap.

Local Open Scope string_scope.
#[local] Set Warnings "-register-all".

(** A Python value: a scalar, or a reference to a mutable object. *)
Inductive pyval :=
| PyNone
| PyBool (b : bool)
| PyInt (z : Z)
| PyStr (s : string)
| PyRef (l : nat).

(** The mutable objects of a parsed JSON document: lists and dicts (a dict
    keeps its keys in insertion order). *)
Inductive pyobj :=
| PyList (vs : list pyval)
| PyDict (kv : list (string * pyval)).

Definition heap := list pyobj.

Abbreviation H := (st heap).

Definition alloc (o : pyobj) : H pyval :=
  h <- get_state ;;
  _ <- modify (fun h => app h [o]) ;;
  ret (PyRef (List.length h)).

(** [json.loads]: every list and dict of the document is a new object. *)
Fixpoint json_alloc (j : json) : H pyval :=
  match j with
  | JNull => ret PyNone
  | JBool b => ret (PyBool b)
  | JInt z => ret (PyInt z)
  | JStr s => ret (PyStr s)
  | JList l =>
      vs <- (fix go (l : list json) : H (list pyval) :=
               match l with
               | [] => ret []
               | x :: r => v <- json_alloc x ;; vs <- go r ;; ret (v :: vs)
               end) l ;;
      alloc (PyList vs)
  | JObj kv =>
      ps <- (fix go (kv : list (string * json)) : H (list (string * pyval)) :=
               match kv with
               | [] => ret []
               | (k, x) :: r => v <- json_alloc x ;; ps <- go r ;; ret ((k, v) :: ps)
               end) kv ;;
      alloc (PyDict (dict_of_pairs ps))
  end.

(** The JSON document a value denotes on a heap ([fuel] bounds the depth of
    the references followed). *)
Fixpoint to_json (fuel : nat) (h : heap) (v : pyval) : option json :=
  match v with
  | PyNone => Some JNull
  | PyBool b => Some (JBool b)
  | PyInt z => Some (JInt z)
  | PyStr s => Some (JStr s)
  | PyRef l =>
      match fuel with
      | O => None
      | S f =>
          match nth_error h l with
          | Some (PyList vs) =>
              JList <$> (fix go (vs : list pyval) : option (list json) :=
                           match vs with
                           | [] => Some []
                           | x :: r =>
                               match to_json f h x, go r with
                               | Some j, Some js => Some (j :: js)
                               | _, _ => None
                               end
                           end) vs
          | Some (PyDict kv) =>
              JObj <$> (fix go (kv : list (string * pyval)) : option (list (string * json)) :=
                          match kv with
                          | [] => Some []
                          | (k, x) :: r =>
                              match to_json f h x, go r with
                              | Some j, Some js => Some ((k, j) :: js)
                              | _, _ => None
                              end
                          end) kv
          | None => None
          end
      end
  end.

(** Read a value as a JSON document (references of a parsed document
    point to older objects, so [length h] steps suffice). *)
Definition read_json (v : pyval) : H json :=
  h <- get_state ;; lift_opt TypeError (to_json (S (List.length h)) h v).

(** The position of index [i] in a sequence of length [n]. *)
Definition py_pos (n : nat) (i : Z) : option nat :=
  (if i <? 0 then
     (if Z.of_nat n + i <? 0 then None else Some (Z.to_nat (Z.of_nat n + i)))
   else if i <? Z.of_nat n then Some (Z.to_nat i) else None)%Z.

(** [x[k]] *)
Definition getitem (v : pyval) (k : key) : H pyval :=
  match v with
  | PyRef l =>
      h <- get_state ;;
      match nth_error h l, k with
      | Some (PyDict kv), KStr s => lift_opt KeyError (assoc_get kv s)
      | Some (PyDict _), KInt _ => throw KeyError
      | Some (PyList vs), KInt i =>
          p <- lift_opt IndexError (py_pos (List.length vs) i) ;;
          lift_opt IndexError (nth_error vs p)
      | _, _ => throw TypeError
      end
  | PyStr s =>
      match k with
      | KInt i =>
          p <- lift_opt IndexError (py_pos (String.length s) i) ;;
          c <- lift_opt IndexError (nth_error (list_ascii_of_string s) p) ;;
          ret (PyStr (String c EmptyString))
      | KStr _ => throw TypeError
      end
  | _ => throw TypeError
  end.

(** [x[k] = y]. The dicts of a JSON document have string keys; a dict is
    only ever subscripted with strings by the sources. *)
Definition setitem (v : pyval) (k : key) (y : pyval) : H unit :=
  match v with
  | PyRef l =>
      h <- get_state ;;
      match nth_error h l, k with
      | Some (PyDict kv), KStr s => modify (fun h => <[l := PyDict (assoc_set kv s y)]> h)
      | Some (PyList vs), KInt i =>
          p <- lift_opt IndexError (py_pos (List.length vs) i) ;;
          modify (fun h => <[l := PyList (<[p := y]> vs)]> h)
      | _, _ => throw TypeError
      end
  | _ => throw TypeError
  end.

(** [x.copy()] on a dict or a list: a new object holding the same
    values (a shallow copy). *)
Definition py_copy (v : pyval) : H pyval :=
  match v with
  | PyRef l =>
      h <- get_state ;;
      match nth_error h l with
      | Some o => alloc o
      | None => throw TypeError
      end
  | _ => throw AttributeError
  end.

(** [for x in v] *)
Definition py_iter (v : pyval) : H (list pyval) :=
  match v with
  | PyRef l =>
      h <- get_state ;;
      match nth_error h l with
      | Some (PyList vs) => ret vs
      | Some (PyDict kv) => ret (map (fun p => PyStr (fst p)) kv)
      | None => throw TypeError
      end
  | PyStr s => ret (map (fun c => PyStr (String c EmptyString)) (list_ascii_of_string s))
  | _ => throw TypeError
  end.

(** An int argument of [range] *)
Definition py_index_arg (v : pyval) : H Z :=
  match v with
  | PyInt z => ret z
  | PyBool b => ret (if b then 1 else 0)%Z
  | _ => throw TypeError
  end.

Definition is_pystr (v : pyval) (s : string) : bool :=
  match v with PyStr s' => String.eqb s' s | _ => false end.

Definition lift_py {A} (r : pyres A) : H A :=
  match r with POk a => ret a | PRaise e => throw e end.

(** [for i, x in enumerate(l): body(i, x)] *)
Fixpoint for_enum (i : Z) (l : list pyval) (body : Z -> pyval -> H unit) : H unit :=
  match l with
  | [] => ret tt
  | x :: r => _ <- body i x ;; for_enum (i + 1)%Z r body
  end.

End Heap.

Import Heap.

(* ------------------------------------------------------------------ *)
(** ** interface.py: from a solver model back to Echidna JSON *)

Module Update.

Local Open Scope string_scope.

(** [needle in hay] for strings. *)
Fixpoint is_substring (needle hay : string) : bool :=
  String.prefix needle hay ||
  match hay with EmptyString => false | String _ r => is_substring needle r end.

(** [VarContext.contained_vars()] (in some order), [contains], [get]. *)
Definition contained_vars (m : VarContext) : list string := map fst (map_to_list m).
Definition contains (m : VarContext) (name : string) : bool :=
  match m !! name with Some _ => true | None => false end.
Definition model_get (m : VarContext) (name : string) : H Z :=
  lift_opt MaatError (m !! name).

Section Update.
Context `{UtilFns}.
Variable new_model : VarContext.

(** The [for i in range(length)] loop of the [AbiBytes] case, from index
    [i] with [k] iterations left. *)
Fixpoint bytes_loop (arg_name : string) (k : nat) (i : Z) (val : list Z) : H (list Z) :=
  match k with
  | O => ret val
  | S k' =>
      let byte_name := arg_name ++ "_" ++ PyStr.str_int i in
      val' <- (if contains new_model byte_name then
                 x <- model_get new_model byte_name ;;
                 p <- lift_opt IndexError (py_pos (List.length val) i) ;;
                 ret (<[p := Z.land x 255]> val)
               else ret val) ;;
      bytes_loop arg_name k' (i + 1)%Z val'
  end.

(** [update_argument(arg, arg_name, new_model)]; [fuel] bounds the
    nesting of the recursion. *)
Fixpoint update_argument_rec (fuel : nat) (arg : pyval) (arg_name : string) : H unit :=
  match fuel with
  | O => throw RecursionError
  | S f =>
      if forallb (fun var => negb (is_substring arg_name var)) (contained_vars new_model)
      then ret tt
      else
        argType <- getitem arg (KStr "tag") ;;
        if is_pystr argType "AbiUInt" then
          z <- model_get new_model arg_name ;;
          c <- getitem arg (KStr "contents") ;;
          setitem c (KInt 1) (PyStr (PyStr.str_int z))
        else if is_pystr argType "AbiInt" then
          argVal <- model_get new_model arg_name ;;
          c <- getitem arg (KStr "contents") ;;
          bitsv <- getitem c (KInt 0) ;;
          bits <- read_json bitsv ;;
          r <- lift_py (twos_complement_convert argVal bits) ;;
          c <- getitem arg (KStr "contents") ;;
          setitem c (KInt 1) (PyStr (PyStr.str_int r))
        else if is_pystr argType "AbiBool" then
          argVal <- model_get new_model arg_name ;;
          setitem arg (KStr "contents") (PyBool (int_to_bool argVal))
        else if is_pystr argType "AbiAddress" then
          z <- model_get new_model arg_name ;;
          setitem arg (KStr "contents") (PyStr (PyStr.hex z))
        else if is_pystr argType "AbiBytes" then
          c <- getitem arg (KStr "contents") ;;
          length <- getitem c (KInt 0) ;;
          c <- getitem arg (KStr "contents") ;;
          bv <- getitem c (KInt 1) ;;
          bj <- read_json bv ;;
          val <- lift_py (echidna_parse_bytes bj) ;;
          n <- py_index_arg length ;;
          val <- bytes_loop arg_name (Z.to_nat n) 0 val ;;
          c <- getitem arg (KStr "contents") ;;
          setitem c (KInt 1) (PyStr (echidna_encode_bytes val))
        else if is_pystr argType "AbiTuple" then
          tuple_els <- getitem arg (KStr "contents") ;;
          els <- py_iter tuple_els ;;
          for_enum 0 els (fun i el => update_argument_rec f el (arg_name ++ "_" ++ PyStr.str_int i))
        else if is_pystr argType "AbiArray" then
          c <- getitem arg (KStr "contents") ;;
          arr_els <- getitem c (KInt 2) ;;
          els <- py_iter arr_els ;;
          for_enum 0 els (fun i el => update_argument_rec f el (arg_name ++ "_" ++ PyStr.str_int i))
        else if is_pystr argType "AbiArrayDynamic" then
          c <- getitem arg (KStr "contents") ;;
          arr_els <- getitem c (KInt 1) ;;
          els <- py_iter arr_els ;;
          for_enum 0 els (fun i el => update_argument_rec f el (arg_name ++ "_" ++ PyStr.str_int i))
        else
          tj <- read_json argType ;;
          throw (EchidnaException ("Unsupported argument type: " ++ py_str tj))
  end.

Definition update_argument (arg : pyval) (arg_name : string) : H unit :=
  update_argument_rec recursion_limit arg arg_name.

(** [update_tx(tx, new_model, tx_name)] *)
Definition update_tx (tx : pyval) (tx_name : string) : H pyval :=
  tx <- py_copy tx ;;
  call <- getitem tx (KStr "_call") ;;
  c <- getitem call (KStr "contents") ;;
  args <- getitem c (KInt 1) ;;
  els <- py_iter args ;;
  _ <- for_enum 0 els (fun i arg => update_argument arg (tx_name ++ "_arg" ++ PyStr.str_int i)) ;;
  let block_num_inc := tx_name ++ "_block_num_inc" in
  let block_timestamp_inc := tx_name ++ "_block_timestamp_inc" in
  _ <- (if contains new_model block_num_inc then
          z <- model_get new_model block_num_inc ;;
          d <- getitem tx (KStr "_delay") ;;
          setitem d (KInt 1) (PyStr (PyStr.hex z))
        else ret tt) ;;
  _ <- (if contains new_model block_timestamp_inc then
          z <- model_get new_model block_timestamp_inc ;;
          d <- getitem tx (KStr "_delay") ;;
          setitem d (KInt 0) (PyStr (PyStr.hex z))
        else ret tt) ;;
  let sender := tx_name ++ "_sender" in
  _ <- (if contains new_model sender then
          z <- model_get new_model sender ;;
          setitem tx (KStr "_src") (PyStr ("0x" ++ PyStr.format_0x 40 z))
        else ret tt) ;;
  let value := tx_name ++ "_value" in
  _ <- (if contains new_model value then
          z <- model_get new_model value ;;
          setitem tx (KStr "_value") (PyStr (PyStr.hex z))
        else ret tt) ;;
  ret tx.

End Update.

End Update.

Import Update.

(* ------------------------------------------------------------------ *)
(** ** interface.py: [get_available_filename] *)

Module Files.

Local Open Scope string_scope.

Section Files.
(** [os.path.exists] on the file system at the time of the call. *)
Variable path_exists : string -> bool.

Definition candidate (prefix suffix : string) (num : Z) : string :=
  prefix ++ "_" ++ PyStr.str_int num ++ suffix.

(** The [while] loop, with [fuel] iterations at most. *)
Fixpoint search (fuel : nat) (prefix suffix : string) (num num_max : Z) : Z :=
  match fuel with
  | O => num
  | S f =>
      if path_exists (candidate prefix suffix num) && (num <? num_max)%Z
      then search f prefix suffix (num + 1)%Z num_max
      else num
  end.

Definition num_max : Z := 100000.

(** [get_available_filename(prefix, suffix)]; the loop stops after at most
    [num_max + 1] tests. *)
Definition get_available_filename (prefix suffix : string) : pyres string :=
  let num := search (S (Z.to_nat num_max)) prefix suffix 0 num_max in
  if (num >=? num_max)%Z
  then PRaise (GenericException "Can't find available filename, very odd")
  else POk (candidate prefix suffix num).

End Files.

End Files.

Import Files.

(* ------------------------------------------------------------------ *)
(** * Counters of the orchestrator

    [acct eng w w'] relates two worlds of one run: the engine clock moved
    forward, the queue did not grow, and every transaction that left the
    queue or was started as a sub-call (one per sub-call answer of the
    engine between the two clocks) was counted in [current_tx_num].
    [same_counters] says that a step left the three counters unchanged. *)

Import Run.

Section Counters.
Variable eng : nat -> EngineEvent.

Definition acct (w w' : EVMWorld) : Prop :=
  (engine_clock w <= engine_clock w')%nat /\
  (length (tx_queue w') <= length (tx_queue w))%nat /\
  (current_tx_num w' + length (tx_queue w') + subcalls_upto eng (engine_clock w)
   = current_tx_num w + length (tx_queue w) + subcalls_upto eng (engine_clock w'))%nat.

Definition Acct {A} (m : st EVMWorld A) : Prop := forall w, acct w (state_of (m w)).
End Counters.

Definition same_counters (w w' : EVMWorld) : Prop :=
  current_tx_num w' = current_tx_num w /\ tx_queue w' = tx_queue w /\
  engine_clock w' = engine_clock w.

Definition Pres {A} (m : st EVMWorld A) : Prop := forall w, same_counters w (state_of (m w)).

(* ------------------------------------------------------------------ *)
(** * Concrete inputs

    A world with one deployed contract at address 10 running transaction
    [tx_A], and an engine whose first answer asks for an outgoing
    transaction of a given type and whose later answers revert. *)

Module Scenario.
Definition tx_A : EVMTransaction :=
  EVMTransaction7 (Cst 160 1) (Cst 160 1) 10 (Cst 256 0) [] (Cst 256 0) (Cst 256 0).
Definition rt_A : EVMRuntime :=
  let c := mkEVMContract tx_A None None [] [] in mkEVMRuntime c c.
Definition runner_A : ContractRunner := mkContractRunner 10 1 [rt_A] true [].
Definition atx_A : AbstractTx := mkAbstractTx tx_A (Cst 256 0) (Cst 256 0) ∅.
Definition out_tx (ty : TX) : EVMTransaction :=
  mkEVMTransaction (Cst 160 10) (Cst 160 10) 0 (Cst 256 0) [Cst 8 96]
    (Cst 256 0) (Cst 256 0) ty (Cst 256 0) (Cst 256 0) empty_result.
Definition world_A : EVMWorld :=
  mkEVMWorld {[10 := runner_A]} [10] [] (Some atx_A) 1 ∅ [] [] 0.
Definition engine_answers (ty : TX) (n : nat) : EngineEvent :=
  match n with
  | O => mkEngineEvent NONE 0 (Some (out_tx ty)) empty_result
  | _ => mkEngineEvent EXIT TX_RES_REVERT None empty_result
  end.
Definition new_addr (d n : Z) : Z := d * 100 + n.
Definition call_out : EVMTransaction :=
  mkEVMTransaction (Cst 160 10) (Cst 160 10) 20 (Cst 256 0) []
    (Cst 256 0) (Cst 256 0) CALL (Cst 256 0) (Cst 256 32) empty_result.
Definition call_result : TxResult := mkTxResult [Cst 8 1] 64.
Definition caller : EVMContract :=
  mkEVMContract tx_A (Some call_out) (Some call_result) [] [].
End Scenario.

(** Echidna transactions in the JSON layout read by [load_tx], and an
    instance of the helpers of [optik.common.util] and [optik.common.abi]
    that converts nothing. *)

Module Corpus.

Local Open Scope string_scope.

Definition util0 : UtilFns := {|
  twos_complement_convert := fun z _ => POk z;
  int_to_bool := fun z => negb (Z.eqb z 0);
  echidna_parse_bytes := fun _ => POk [];
  echidna_encode_bytes := fun _ => EmptyString |}.
Definition abi0 : AbiFns := {| function_call := fun _ _ ctx _ _ => POk ([], ctx) |}.

Definition tx_call (contents : list json) : json :=
  JObj [("_call", JObj [("tag", JStr "SolCall"); ("contents", JList contents)]);
        ("_src", JStr "0x10000"); ("_dst", JStr "0x20000"); ("_gas'", JStr "0x1");
        ("_gasprice'", JStr "0x0"); ("_value", JStr "0x0");
        ("_delay", JList [JStr "0x0"; JStr "0x0"])].
Definition tx_call_delay (contents : list json) (d0 d1 : string) : json :=
  JObj [("_call", JObj [("tag", JStr "SolCall"); ("contents", JList contents)]);
        ("_src", JStr "0x10000"); ("_dst", JStr "0x20000"); ("_gas'", JStr "0x1");
        ("_gasprice'", JStr "0x0"); ("_value", JStr "0x0");
        ("_delay", JList [JStr d0; JStr d1])].
Definition abi_arg (tag : string) (contents : json) : json :=
  JObj [("tag", JStr tag); ("contents", contents)].

End Corpus.

Import Corpus.

(* ------------------------------------------------------------------ *)
(** ** interface.py: transaction sequences *)

Module Sequence.

Local Open Scope string_scope.

Section Sequence.
Context `{UtilFns} `{AbiFns}.

(** The loop of [load_tx_sequence]: [load_tx(tx, tx_name=f"tx{i}")] for
    [i, tx] in [enumerate(data)], from index [i]. *)
Fixpoint load_txs (i : Z) (l : list json) : pyres (list AbstractTx) :=
  match l with
  | [] => POk []
  | tx :: r =>
      a <-- load_tx tx ("tx" ++ PyStr.str_int i) ;;
      res <-- load_txs (i + 1)%Z r ;;
      POk (a :: res)
  end.

(** [load_tx_sequence(filename)], on the document [json.loads] read from
    the file. *)
Definition load_tx_sequence (data : json) : pyres (list AbstractTx) :=
  txs <-- json_iter data ;;
  load_txs 0 txs.

End Sequence.

Section Store.
Context `{UtilFns}.
(** [os.path.exists] and [os.path.dirname]. *)
Variable path_exists : string -> bool.
Variable dirname : string -> string.
Variable new_model : VarContext.

Definition NEW_INPUT_PREFIX : string := "optik_solved_input".

(** The loop of [store_new_tx_sequence]: [update_tx(tx, new_model,
    tx_name=f"tx{i}")] for [i, tx] in [enumerate(data)], from index [i]. *)
Fixpoint update_txs (i : Z) (l : list pyval) : H (list pyval) :=
  match l with
  | [] => ret []
  | tx :: r =>
      v <- update_tx new_model tx ("tx" ++ PyStr.str_int i) ;;
      vs <- update_txs (i + 1)%Z r ;;
      ret (v :: vs)
  end.

(** [store_new_tx_sequence(original_file, new_model)], on the document
    [contents] of the original file; returns the name of the new file and
    the document [json.dump] writes to it (the list [new_data]). *)
Definition store_new_tx_sequence (original_file : string) (contents : json) : H (string * json) :=
  data <- json_alloc contents ;;
  els <- py_iter data ;;
  new_data <- update_txs 0 els ;;
  new_file <- lift_py (get_available_filename path_exists
                         (dirname original_file ++ "/" ++ NEW_INPUT_PREFIX) ".txt") ;;
  out <- alloc (PyList new_data) ;;
  j <- read_json out ;;
  ret (new_file, j).

End Store.

(** The document [json.dump] writes for the value [json.loads] builds from
    [j]: the pairs of an object become a Python dict. *)
Fixpoint json_normal (j : json) : json :=
  match j with
  | JList l => JList (map json_normal l)
  | JObj kv => JObj (dict_of_pairs (map (fun '(k, x) => (k, json_normal x)) kv))
  | _ => j
  end.

(** A value denotes [j] on [h] within [length h] steps. *)
Definition denotes (h : heap) (v : pyval) (j : json) : Prop :=
  to_json (List.length h) h v = Some j.

End Sequence.

Import Sequence.

(* ------------------------------------------------------------------ *)
(** ** world.py: the transaction queue and the monitors *)

Module Queue.

(** [EVMWorld.push_transaction] *)
Definition push_transaction (t : AbstractTx) : st EVMWorld unit :=
  modify (with_tx_queue (fun q => q ++ [t])).

(** [EVMWorld.push_transactions]: [for tx in tx_list: self.push_transaction(tx)]. *)
Fixpoint push_transactions (ts : list AbstractTx) : st EVMWorld unit :=
  match ts with
  | [] => ret tt
  | t :: r => _ <- push_transaction t ;; push_transactions r
  end.

End Queue.

(** Monitors are compared as Python compares them in [monitor in
    self.monitors] and [self.monitors.remove(monitor)]. *)
Module Monitors.
Section Monitors.
Context {Mon : Type} `{EqDecision Mon}.

Inductive monitor_msg :=
| MonitorAlreadyAttached       (* "Monitor already attached" *)
| MonitorNotAttached.          (* "Monitor was not attached" *)

(** [list.remove(x)]: removes the first item equal to [x]. *)
Fixpoint list_remove (m : Mon) (l : list Mon) : list Mon :=
  match l with
  | [] => []
  | x :: r => if decide (x = m) then r else x :: list_remove m r
  end.

(** [EVMWorld.attach_monitor] on the list [self.monitors] (the
    [monitor.world] link and the [on_attach] callback are the monitor's
    own). *)
Definition attach_monitor (m : Mon) (ms : list Mon) : monitor_msg + list Mon :=
  if decide (m ∈ ms) then inl MonitorAlreadyAttached else inr (ms ++ [m]).

(** [EVMWorld.detach_monitor] on the list [self.monitors]. *)
Definition detach_monitor (m : Mon) (ms : list Mon) : monitor_msg + list Mon :=
  if decide (m ∈ ms) then inr (list_remove m ms) else inl MonitorNotAttached.

End Monitors.
End Monitors.

Import Queue Monitors.

(* ------------------------------------------------------------------ *)
(** ** Concrete worlds *)

Module Worlds.
Import Scenario.
Definition idle_A : EVMWorld := mkEVMWorld {[10 := runner_A]} [] [atx_A] None 0 ∅ [] [] 0.
Definition idle_empty : EVMWorld := mkEVMWorld ∅ [] [atx_A] None 0 ∅ [] [] 0.
Definition exit_answers (n : nat) : EngineEvent := mkEngineEvent EXIT TX_RES_STOP None empty_result.
Definition hook_answers (n : nat) : EngineEvent := mkEngineEvent HOOK 0 None empty_result.
Definition runner_B : ContractRunner := mkContractRunner 0 1 [] true [].
Definition world_A_taken : EVMWorld :=
  mkEVMWorld {[10 := runner_A; 1001 := runner_B]} [10] [] (Some atx_A) 1 ∅ [] [] 0.
Definition ctor_result : TxResult := mkTxResult [Cst 8 96] 1.
Definition create_answers (n : nat) : EngineEvent :=
  match n with
  | O => mkEngineEvent NONE 0 (Some (out_tx CREATE)) empty_result
  | _ => mkEngineEvent EXIT TX_RES_RETURN None ctor_result
  end.
End Worlds.

(* ================================================================== *)
(** * Properties of the orchestrator *)

Section Accounting.
Variable eng : nat -> EngineEvent.
Variable caddr : Z -> Z -> Z.

Lemma acct_refl w : acct eng w w.
Proof. unfold acct; lia. Qed.

Lemma subcalls_upto_mono n m : (n <= m)%nat -> (subcalls_upto eng n <= subcalls_upto eng m)%nat.
Proof. induction 1; simpl; lia. Qed.

Lemma acct_trans w1 w2 w3 : acct eng w1 w2 -> acct eng w2 w3 -> acct eng w1 w3.
Proof. unfold acct; lia. Qed.

Lemma same_acct w w' : same_counters w w' -> acct eng w w'.
Proof. unfold same_counters, acct. intros (-> & -> & ->). lia. Qed.

Lemma Pres_Acct {A} (m : st EVMWorld A) : Pres m -> Acct eng m.
Proof. intros H w. apply same_acct, H. Qed.

Lemma Acct_bind {A B} (m : st EVMWorld A) (k : A -> st EVMWorld B) :
  Acct eng m -> (forall a, Acct eng (k a)) -> Acct eng (bind m k).
Proof.
  intros Hm Hk w. specialize (Hm w). unfold bind.
  destruct (m w) as [a s|e s]; simpl in *; [|exact Hm].
  eapply acct_trans; [exact Hm | apply Hk].
Qed.

Lemma Pres_bind {A B} (m : st EVMWorld A) (k : A -> st EVMWorld B) :
  Pres m -> (forall a, Pres (k a)) -> Pres (bind m k).
Proof.
  intros Hm Hk w. specialize (Hm w). unfold bind.
  destruct (m w) as [a s|e s]; simpl in *; [|exact Hm].
  specialize (Hk a s). unfold same_counters in *. intuition congruence.
Qed.

Lemma Pres_ret {A} (a : A) : Pres (ret a).
Proof. intros w. unfold same_counters. simpl. auto. Qed.
Lemma Pres_get : Pres get_state.
Proof. intros w. unfold same_counters. simpl. auto. Qed.
Lemma Pres_throw {A} e : Pres (A:=A) (throw e).
Proof. intros w. unfold same_counters. simpl. auto. Qed.
Lemma Pres_lift_opt {A} e (o : option A) : Pres (lift_opt e o).
Proof. destruct o; [apply Pres_ret|apply Pres_throw]. Qed.
Lemma Pres_modify f : (forall w, same_counters w (f w)) -> Pres (modify f).
Proof. intros H w. apply H. Qed.

Lemma Pres_on_engine {A} a (m : st EVMContract A) : Pres (on_engine a m).
Proof.
  unfold on_engine. apply Pres_bind; [|intros r].
  - unfold lookup_contract. apply Pres_bind; [apply Pres_get|intros; apply Pres_lift_opt].
  - apply Pres_bind; [apply Pres_lift_opt|intros rt w].
    destruct (m (engine rt)); unfold same_counters; simpl; auto.
Qed.

Ltac pres :=
  repeat (cbv beta zeta; match goal with
    | |- Pres (on_engine _ _) => apply Pres_on_engine
    | |- Pres (bind _ _) => apply Pres_bind; [|intro]
    | |- Pres (ret _) => apply Pres_ret
    | |- Pres get_state => apply Pres_get
    | |- Pres (throw _) => apply Pres_throw
    | |- Pres (lift_opt _ _) => apply Pres_lift_opt
    | |- Pres (modify _) => apply Pres_modify; intro; unfold same_counters; simpl; auto
    | |- Pres (match ?x with _ => _ end) => destruct x
    | |- Pres (if ?b then _ else _) => destruct b
    end).

Lemma Pres_lookup_contract a : Pres (lookup_contract a).
Proof. unfold lookup_contract. pres. Qed.
Lemma Pres_current_address : Pres current_address.
Proof. unfold current_address. pres. Qed.
Lemma Pres_current_contract : Pres current_contract.
Proof. unfold current_contract. pres; auto using Pres_lookup_contract, Pres_current_address. Qed.
Lemma Pres_update_runner a f : Pres (update_runner a f).
Proof. unfold update_runner. pres; auto using Pres_lookup_contract. Qed.
Lemma Pres_deploy a d args b : Pres (deploy a d args b).
Proof. unfold deploy. pres. Qed.
Lemma Pres_push_runtime a t : Pres (push_runtime a t).
Proof. unfold push_runtime. pres; auto using Pres_update_runner. Qed.
Lemma Pres_revert_current : Pres revert_current.
Proof. unfold revert_current. pres; auto using Pres_current_address, Pres_lookup_contract. Qed.

Ltac pres2 := pres; auto using Pres_lookup_contract, Pres_current_address, Pres_current_contract,
  Pres_update_runner, Pres_deploy, Pres_push_runtime, Pres_revert_current.

Lemma Pres_handle_CREATE : Pres (handle_CREATE caddr).
Proof. unfold handle_CREATE. pres2. Qed.
Lemma Pres_handle_CREATE_after b : Pres (handle_CREATE_after b).
Proof. unfold handle_CREATE_after. pres2. Qed.
Lemma Pres_handle_CALL : Pres handle_CALL.
Proof. unfold handle_CALL. pres2. Qed.
Lemma Pres_exit_branch i rt : Pres (exit_branch i rt).
Proof. unfold exit_branch. pres2; auto using Pres_handle_CREATE_after. Qed.
Lemma Pres_dispatch o : Pres (dispatch_outgoing caddr o).
Proof. unfold dispatch_outgoing. pres2; auto using Pres_handle_CREATE, Pres_handle_CALL. Qed.


Lemma Acct_start_transaction : Acct eng start_transaction.
Proof.
  intros w. unfold start_transaction, next_transaction.
  unfold bind at 1 2. unfold get_state at 1. cbv beta.
  destruct (tx_queue w) as [|t q] eqn:Hq; simpl; [apply acct_refl|].
  unfold bind at 1, modify at 1. cbv beta iota.
  unfold bind at 1, modify at 1. cbv beta iota.
  set (w1 := with_current_tx_num S (with_current_tx (Some t) (with_tx_queue tail w))).
  assert (H1 : acct eng w w1).
  { unfold acct, w1; destruct w; simpl in *; subst; simpl; lia. }
  eapply acct_trans; [exact H1|].
  apply Pres_Acct. pres; auto using Pres_lookup_contract, Pres_push_runtime.
Qed.

Lemma Acct_start_if_idle : Acct eng start_if_idle.
Proof.
  intros w. unfold start_if_idle, bind at 1, get_state at 1. cbv beta iota.
  destruct (call_stack w); [apply Acct_start_transaction|apply acct_refl].
Qed.

Lemma run_current_spec w :
  match run_current eng w with
  | Ok p w' =>
      current_tx_num w' = current_tx_num w /\ tx_queue w' = tx_queue w /\
      engine_clock w' = S (engine_clock w) /\
      stop (fst p) = ev_stop (eng (engine_clock w)) /\
      outgoing_transaction (engine (snd p)) = ev_outgoing (eng (engine_clock w))
  | Raise _ w' => same_counters w w'
  end.
Proof.
  unfold run_current, current_address, lookup_contract, bind, get_state, lift_opt, ret, throw, modify.
  destruct (call_stack w); [unfold same_counters; auto|].
  destruct (contracts w !! z); [|unfold same_counters; auto].
  destruct (current_runtime c); [|unfold same_counters; auto].
  destruct w; simpl; auto.
Qed.

Lemma step_branch_spec p w :
  let w' := state_of (step_branch caddr p w) in
  engine_clock w' = engine_clock w /\ tx_queue w' = tx_queue w /\
  current_tx_num w' = (current_tx_num w +
    if STOP_eqb (stop (fst p)) NONE &&
       match outgoing_transaction (engine (snd p)) with Some _ => true | None => false end
    then 1 else 0)%nat.
Proof.
  unfold step_branch. cbv zeta.
  destruct (STOP_eqb (stop (fst p)) EXIT) eqn:He.
  - destruct (stop (fst p)); try discriminate. simpl.
    pose proof (Pres_bind _ _ (Pres_exit_branch (fst p) (snd p)) (fun _ => Pres_ret (true, EXIT)) w) as H.
    unfold same_counters in H. rewrite Nat.add_0_r. intuition.
  - destruct (stop (fst p)), (outgoing_transaction (engine (snd p))); simpl;
      try discriminate; try (rewrite Nat.add_0_r; auto; fail).
    change (state_of ((_ <- modify (with_current_tx_num S) ;;
                      _ <- dispatch_outgoing caddr e ;; ret (true, NONE)) w))
      with (state_of ((_ <- dispatch_outgoing caddr e ;; ret (true, NONE)) (with_current_tx_num S w))).
    pose proof (Pres_bind _ _ (Pres_dispatch e) (fun _ => Pres_ret (true, NONE))
                  (with_current_tx_num S w)) as (H1 & H2 & H3).
    rewrite H1, H2, H3. destruct w; simpl. repeat split; lia.
Qed.

Lemma Acct_run_step : Acct eng (p <- run_current eng ;; step_branch caddr p).
Proof.
  intros w. pose proof (run_current_spec w) as H. unfold bind at 1.
  destruct (run_current eng w) as [p w1|e w1]; simpl; [|apply same_acct, H].
  destruct H as (Hn & Hq & Hc & Hs & Ho).
  pose proof (step_branch_spec p w1) as (Hc2 & Hq2 & Hn2).
  unfold acct. rewrite Hc2, Hq2, Hn2, Hc, Hq, Hn, Hs, Ho. simpl.
  unfold is_subcall. lia.
Qed.

Lemma Acct_loop_body : Acct eng (loop_body eng caddr).
Proof.
  unfold loop_body. apply Acct_bind; [apply Acct_start_if_idle|intros _].
  apply Acct_run_step.
Qed.

Lemma Acct_run_loop fuel last : Acct eng (run_loop eng caddr fuel last).
Proof.
  revert last. induction fuel as [|f IH]; intros last; simpl.
  - apply Pres_Acct, Pres_ret.
  - apply Acct_bind; [apply Pres_Acct, Pres_get|intros w].
    destruct (has_work w); [|apply Pres_Acct, Pres_ret].
    apply Acct_bind; [apply Acct_loop_body|intros p].
    destruct (fst p); [apply IH|apply Pres_Acct, Pres_ret].
Qed.

Lemma Acct_run fuel : Acct eng (run eng caddr fuel).
Proof.
  unfold run. apply Acct_bind; [apply Pres_Acct, Pres_get|intros w].
  destruct (has_work w); [apply Acct_run_loop|apply Pres_Acct, Pres_throw].
Qed.

End Accounting.

Ltac red_run := cbv beta iota zeta delta [run run_loop loop_body has_work nonempty run_current
    current_address lookup_contract current_contract dispatch_outgoing handle_CREATE handle_CALL
    update_runner deploy push_runtime exit_branch handle_CREATE_after handle_CALL_after on_engine
    revert_current start_transaction next_transaction start_if_idle step_branch
    bind get_state ret lift_opt modify throw current_runtime
    with_contracts with_call_stack with_tx_queue with_current_tx with_current_tx_num with_vars
    with_block_log with_events with_engine_clock with_nonce with_runtime_stack with_initialized
    with_code EVMRuntime_new ContractRunner_new TX_eqb STOP_eqb orb andb negb
    set_outgoing set_rflc set_transaction set_result stack_push write_buffer head tail
    contracts call_stack tx_queue current_tx current_tx_num vars block_log events engine_clock
    address nonce runtime_stack initialized code engine init_state stop exit_status fst snd
    TX_RES_STOP TX_RES_RETURN TX_RES_REVERT
    transaction outgoing_transaction result_from_last_call stack memory
    origin sender recipient value data gas_price gas_limit type ret_offset ret_len result
    return_data return_data_size tx block_num_inc block_timestamp_inc ctx].

Ltac go := repeat (red_run; repeat match goal with |- context [if ?b then true else true] =>
                replace (if b then true else true) with true by (destruct b; reflexivity) end;
    first [ rewrite lookup_insert_eq | (rewrite lookup_insert_ne by congruence)
          | rewrite lookup_delete_eq | (rewrite lookup_delete_ne by congruence)
          | match goal with H : _ !! _ = Some _ |- _ => rewrite H end
          | match goal with H : _ !! _ = None |- _ => rewrite H end
          | match goal with H : ev_stop _ = _ |- _ => rewrite H end
          | match goal with H : ev_outgoing _ = _ |- _ => rewrite H end
          | match goal with H : (ev_exit_status _ =? _) = false |- _ => rewrite H end
          | match goal with H : type _ = _ |- _ => rewrite H end
          | match goal with H : as_uint _ _ = _ |- _ => rewrite H end
          | match goal with |- context [ev_exit_status ?e =? 2] => destruct (ev_exit_status e =? 2) end ]).

(** C1: a CREATE whose constructor frame exits with a status other than
    STOP or RETURN. The deployer [A] (nonce [nonce ra]) issues a CREATE from
    the concrete sender [d]; two loop iterations later the new runner at
    [caddr d (nonce ra)] is gone from [contracts], the deployer's engine
    stack has the 256-bit constant 0 pushed on top, and the deployer's nonce
    is [nonce ra + 1], the increment made when the CREATE was issued.
    (The loop then raises [KeyError] when it pops the runtime of the removed
    runner, as [self.current_contract.pop_runtime()] does in the source.) *)
Theorem create_failure fuel eng caddr (w : EVMWorld) A rest ra rta o d ct :
  call_stack w = A :: rest ->
  contracts w !! A = Some ra ->
  current_runtime ra = Some rta ->
  ev_stop (eng (engine_clock w)) = NONE ->
  ev_outgoing (eng (engine_clock w)) = Some o ->
  type o = CREATE ->
  as_uint (vars w) (sender o) = Some d ->
  contracts w !! caddr d (nonce ra) = None ->
  current_tx w = Some ct ->
  ev_stop (eng (S (engine_clock w))) = EXIT ->
  ev_exit_status (eng (S (engine_clock w))) <> TX_RES_STOP ->
  ev_exit_status (eng (S (engine_clock w))) <> TX_RES_RETURN ->
  exists w',
    run eng caddr (S (S fuel)) w = Raise KeyError w' /\
    contracts w' !! caddr d (nonce ra) = None /\
    exists ra' rta',
      contracts w' !! A = Some ra' /\
      nonce ra' = nonce ra + 1 /\
      current_runtime ra' = Some rta' /\
      stack (engine rta') = Cst 256 0 :: stack (engine rta).
Proof.
  intros Hcs HA Hrt Hs0 Ho0 Hty Hd Hnew Hct Hs1 Hx1 Hx2.
  assert (Hne : caddr d (nonce ra) <> A) by (intros E; rewrite E in Hnew; congruence).
  assert (Hne' : A <> caddr d (nonce ra)) by congruence.
  apply Z.eqb_neq in Hx1, Hx2. unfold TX_RES_STOP, TX_RES_RETURN in *.
  destruct w as [cts cs q cur num vs bl evs clk]; cbn in *; subst cs cur.
  destruct ra as [ad nc rs ini cd]; destruct rs as [|rt0 rs]; [discriminate|].
  injection Hrt as <-; cbn in *.
  destruct rt0 as [[t0 o0 r0 st0 m0] i0].
  destruct o as [oo os orc ov od ogp ogl oty oro orl ors]; cbn in *; subst oty.
  go.
  all: eexists; split; [reflexivity|]; cbn.
  all: split; [rewrite lookup_insert_ne by congruence; apply lookup_delete_eq|].
  all: do 2 eexists; rewrite lookup_insert_eq; repeat split; reflexivity.
Qed.

Lemma start_if_idle_has_work (w w1 : EVMWorld) :
  start_if_idle w = Ok tt w1 -> has_work w = true.
Proof.
  unfold start_if_idle, has_work, bind, get_state.
  destruct (call_stack w) as [|a cs]; [|rewrite orb_true_r; reflexivity].
  unfold start_transaction, next_transaction, bind, get_state, lift_opt.
  destruct (tx_queue w); [discriminate|reflexivity].
Qed.

Lemma run_unfold_S eng caddr fuel (w : EVMWorld) :
  has_work w = true ->
  run eng caddr (S fuel) w =
  bind (loop_body eng caddr)
    (fun p => if fst p then run_loop eng caddr fuel (snd p) else ret (Some (snd p))) w.
Proof. intros H. unfold run. cbn [run_loop]. unfold bind, get_state. cbv beta iota. rewrite H. cbv beta iota. rewrite H. reflexivity. Qed.

Lemma loop_body_started eng caddr (w w1 : EVMWorld) :
  start_if_idle w = Ok tt w1 ->
  loop_body eng caddr w = bind (run_current eng) (step_branch caddr) w1.
Proof. intros H. unfold loop_body, bind at 1. rewrite H. reflexivity. Qed.

Lemma nonces_insert_same (cts : gmap Z ContractRunner) a r r' :
  cts !! a = Some r -> nonce r' = nonce r ->
  nonce <$> <[a := r']> cts = nonce <$> cts.
Proof.
  intros H Hn. rewrite fmap_insert. apply insert_id.
  rewrite lookup_fmap, H. simpl. congruence.
Qed.

(** C2: when the engine stops with [STOP.NONE] on an outgoing transaction
    of type CREATE2, CALLCODE or DELEGATECALL, [run] raises a
    [WorldException] of the unsupported-kind messages, and the nonces of all
    deployed contracts, hence also the set of deployed addresses, are those
    of the world before that dispatch: no contract was deployed and no nonce
    incremented. For CREATE2 the sender is a concrete address, so that the
    CREATE handler reaches its type test. *)
Theorem unsupported_outgoing fuel eng caddr (w w1 : EVMWorld) A rest ra rta o :
  start_if_idle w = Ok tt w1 ->
  call_stack w1 = A :: rest ->
  contracts w1 !! A = Some ra ->
  current_runtime ra = Some rta ->
  ev_stop (eng (engine_clock w1)) = NONE ->
  ev_outgoing (eng (engine_clock w1)) = Some o ->
  type o = CREATE2 \/ type o = CALLCODE \/ type o = DELEGATECALL ->
  (type o = CREATE2 -> exists d, as_uint (vars w1) (sender o) = Some d) ->
  exists m w',
    run eng caddr (S fuel) w = Raise (WorldException m) w' /\
    (m = TxTypeNotImplemented \/ m = UnsupportedTxType) /\
    nonces w' = nonces w1.
Proof.
  intros Hst Hcs HA Hrt Hs0 Ho0 Hty Hsnd.
  rewrite run_unfold_S by (eapply start_if_idle_has_work; exact Hst).
  unfold bind at 1. rewrite (loop_body_started _ _ _ _ Hst).
  destruct w1 as [cts cs q cur num vs bl evs clk]; cbn in *; subst cs.
  destruct ra as [ad nc rs ini cd]; destruct rs as [|rt0 rs]; [discriminate|].
  injection Hrt as <-; cbn in *.
  destruct rt0 as [[t0 o0 r0 st0 m0] i0].
  destruct o as [oo os orc ov od ogp ogl oty oro orl ors]; cbn in *.
  unfold nonces; cbn.
  destruct Hty as [-> | [-> | ->]].
  - destruct (Hsnd eq_refl) as [d Hd]. clear Hsnd.
    go. do 2 eexists; split; [reflexivity|].
    split; [left; reflexivity|]. cbn. eapply nonces_insert_same; [exact HA|reflexivity].
  - go. do 2 eexists; split; [reflexivity|].
    split; [right; reflexivity|]. cbn. eapply nonces_insert_same; [exact HA|reflexivity].
  - go. do 2 eexists; split; [reflexivity|].
    split; [right; reflexivity|]. cbn. eapply nonces_insert_same; [exact HA|reflexivity].
Qed.


(** C3: [_handle_CALL_after] first pushes the success flag (1 or 0) as a
    256-bit constant; it raises [ReturnBufferOverflow] exactly when
    [ret_len < return_data_size], leaving memory untouched, and otherwise
    writes [return_data] at [ret_offset]. *)
Theorem handle_CALL_after_spec (c : EVMContract) (succeeded : bool) (o : EVMTransaction) (r : TxResult) (n : Z) :
  outgoing_transaction c = Some o -> result_from_last_call c = Some r -> as_uint ∅ (ret_len o) = Some n ->
  handle_CALL_after succeeded c =
    if n <? return_data_size r
    then Raise (WorldException ReturnBufferOverflow) (stack_push (Cst 256 (if succeeded then 1 else 0)) c)
    else Ok tt (write_buffer (ret_offset o) (return_data r) (stack_push (Cst 256 (if succeeded then 1 else 0)) c)).
Proof.
  intros Ho Hr Hn. unfold handle_CALL_after, bind, modify, get_state, lift_opt, ret, throw. cbn.
  rewrite Ho, Hn, Hr. destruct (n <? return_data_size r); reflexivity.
Qed.

Lemma handle_CALL_after_spec_witness :
  handle_CALL_after true Scenario.caller =
  Raise (WorldException ReturnBufferOverflow) (stack_push (Cst 256 1) Scenario.caller).
Proof.
  rewrite (handle_CALL_after_spec Scenario.caller true Scenario.call_out Scenario.call_result 32);
    reflexivity.
Defined.

(** C4: over any run, [current_tx_num] never decreases, and its increase
    equals the number of transactions taken from [tx_queue] plus the number
    of sub-call answers (stop reason NONE with an outgoing transaction)
    consumed from the engine, whether the run returns or raises. *)
Theorem run_current_tx_num eng caddr fuel (w : EVMWorld) :
  let w' := state_of (run eng caddr fuel w) in
  (current_tx_num w <= current_tx_num w')%nat /\
  (engine_clock w <= engine_clock w')%nat /\
  (length (tx_queue w') <= length (tx_queue w))%nat /\
  (current_tx_num w' + length (tx_queue w') + subcalls_upto eng (engine_clock w)
   = current_tx_num w + length (tx_queue w) + subcalls_upto eng (engine_clock w'))%nat.
Proof.
  intros w'. destruct (Acct_run eng caddr fuel w) as (Hc & Hq & Hn).
  fold w' in Hc, Hq, Hn.
  pose proof (subcalls_upto_mono eng _ _ Hc). lia.
Qed.

Lemma create_failure_witness :
  exists w',
    run (Scenario.engine_answers CREATE) Scenario.new_addr 2 Scenario.world_A = Raise KeyError w' /\
    contracts w' !! Scenario.new_addr 10 1 = None /\
    exists ra' rta',
      contracts w' !! 10 = Some ra' /\ nonce ra' = 1 + 1 /\
      current_runtime ra' = Some rta' /\
      stack (engine rta') = Cst 256 0 :: stack (engine Scenario.rt_A).
Proof.
  apply (create_failure 0 (Scenario.engine_answers CREATE) Scenario.new_addr Scenario.world_A 10 []
           Scenario.runner_A Scenario.rt_A (Scenario.out_tx CREATE) 10 Scenario.atx_A);
    try reflexivity; vm_compute; lia.
Defined.

Lemma unsupported_outgoing_witness :
  exists m w',
    run (Scenario.engine_answers CREATE2) Scenario.new_addr 1 Scenario.world_A = Raise (WorldException m) w' /\
    (m = TxTypeNotImplemented \/ m = UnsupportedTxType) /\
    nonces w' = nonces Scenario.world_A.
Proof.
  apply (unsupported_outgoing 0 (Scenario.engine_answers CREATE2) Scenario.new_addr Scenario.world_A
           Scenario.world_A 10 [] Scenario.runner_A Scenario.rt_A (Scenario.out_tx CREATE2));
    try reflexivity.
  - left; reflexivity.
  - intros _; exists 10; reflexivity.
Defined.


(* ================================================================== *)
(** * Further properties of the orchestrator *)

(** A single queued transaction whose frame exits: two loop iterations
    leave the call stack and queue empty, the contracts unchanged, the
    transaction's context merged into [vars], its block increments logged
    and the [transaction] and [new_runtime] events recorded. *)
Theorem run_single_transaction fuel eng caddr (w : EVMWorld) t r :
  call_stack w = [] -> tx_queue w = [t] ->
  contracts w !! recipient (tx t) = Some r -> initialized r = true ->
  ev_stop (eng (engine_clock w)) = EXIT ->
  run eng caddr (S (S fuel)) w =
    Ok (Some EXIT)
      (mkEVMWorld (contracts w) [] [] (Some t) (S (current_tx_num w)) (ctx t ∪ vars w)
         ((block_num_inc t, block_timestamp_inc t) :: block_log w)
         (on_transaction (tx t) :: on_new_runtime (EVMRuntime_new t) :: events w)
         (S (engine_clock w))).
Proof.
  intros Hcs Hq Hr Hini Hs.
  destruct w as [cts cs q cur num vs bl evs clk]; cbn in *; subst cs q.
  destruct r as [ad nc rs ini cd]; cbn in *; subst ini.
  destruct t as [[to ts trc tv td tgp tgl tty tro trl tres] bn bt tctx]; cbn in *.
  go.
  all: rewrite !insert_insert_eq, (insert_id cts) by exact Hr; reflexivity.
Qed.

(** Starting a transaction to an address without contract raises
    [NoContractAtRecipient] after the transaction has been dequeued, made
    current and counted, with nothing pushed. *)
Theorem run_no_contract_at_recipient fuel eng caddr (w : EVMWorld) t q :
  call_stack w = [] -> tx_queue w = t :: q -> contracts w !! recipient (tx t) = None ->
  run eng caddr (S fuel) w = Raise (WorldException NoContractAtRecipient)
    (mkEVMWorld (contracts w) [] q (Some t) (S (current_tx_num w)) (vars w) (block_log w)
       (events w) (engine_clock w)).
Proof.
  intros Hcs Hq Hr.
  destruct w as [cts cs q' cur num vs bl evs clk]; cbn in *; subst cs q'.
  destruct t as [[to ts trc tv td tgp tgl tty tro trl tres] bn bt tctx]; cbn in *.
  go. red_run. reflexivity.
Qed.

(** A stop reason other than [EXIT], and other than [NONE] with an
    outgoing transaction, ends [run] with that reason: the call stack,
    queue and counter are left as they are. *)
Theorem run_stops_on_other_reason fuel eng caddr (w w1 : EVMWorld) A rest ra rta s :
  start_if_idle w = Ok tt w1 ->
  call_stack w1 = A :: rest -> contracts w1 !! A = Some ra -> current_runtime ra = Some rta ->
  ev_stop (eng (engine_clock w1)) = s -> s <> EXIT ->
  (s = NONE -> ev_outgoing (eng (engine_clock w1)) = None) ->
  exists w', run eng caddr (S fuel) w = Ok (Some s) w' /\
    call_stack w' = A :: rest /\ tx_queue w' = tx_queue w1 /\
    current_tx_num w' = current_tx_num w1 /\ engine_clock w' = S (engine_clock w1).
Proof.
  intros Hst Hcs HA Hrt Hs Hne Hout.
  rewrite run_unfold_S by (eapply start_if_idle_has_work; exact Hst).
  unfold bind at 1. rewrite (loop_body_started _ _ _ _ Hst).
  destruct w1 as [cts cs q cur num vs bl evs clk]; cbn in *; subst cs.
  destruct ra as [ad nc rs ini cd]; destruct rs as [|rt0 rs]; [discriminate|].
  injection Hrt as <-; cbn in *.
  destruct rt0 as [[t0 o0 r0 st0 m0] i0].
  destruct s; try congruence.
  all: try specialize (Hout eq_refl).
  all: go; red_run.
  all: eexists; split; [reflexivity|]; repeat split.
Qed.

(** An outgoing CALL to an address without contract raises
    [NoContractForCall]; the counter has been incremented, the call stack,
    queue and nonces are unchanged. *)
Theorem run_call_no_contract fuel eng caddr (w : EVMWorld) A rest ra rta o :
  call_stack w = A :: rest ->
  contracts w !! A = Some ra ->
  current_runtime ra = Some rta ->
  ev_stop (eng (engine_clock w)) = NONE ->
  ev_outgoing (eng (engine_clock w)) = Some o ->
  type o = CALL ->
  contracts w !! recipient o = None ->
  exists w',
    run eng caddr (S fuel) w = Raise (WorldException NoContractForCall) w' /\
    call_stack w' = A :: rest /\ tx_queue w' = tx_queue w /\
    current_tx_num w' = S (current_tx_num w) /\ nonces w' = nonces w.
Proof.
  intros Hcs HA Hrt Hs0 Ho0 Hty Hr.
  destruct w as [cts cs q cur num vs bl evs clk]; cbn in *; subst cs.
  destruct ra as [ad nc rs ini cd]; destruct rs as [|rt0 rs]; [discriminate|].
  injection Hrt as <-; cbn in *.
  destruct rt0 as [[t0 o0 r0 st0 m0] i0].
  destruct o as [oo os orc ov od ogp ogl oty oro orl ors]; cbn in *; subst oty.
  assert (Hne : orc <> A) by (intros ->; congruence).
  unfold nonces; cbn.
  go; red_run.
  eexists; split; [reflexivity|]. cbn. repeat split.
  eapply nonces_insert_same; [exact HA|reflexivity].
Qed.


(** An outgoing CREATE whose computed address is taken raises
    [AddressInUse]; the deployer's nonce has already been incremented and
    no other nonce changed. *)
Theorem run_create_address_in_use fuel eng caddr (w : EVMWorld) A rest ra rta o d rx :
  call_stack w = A :: rest ->
  contracts w !! A = Some ra ->
  current_runtime ra = Some rta ->
  ev_stop (eng (engine_clock w)) = NONE ->
  ev_outgoing (eng (engine_clock w)) = Some o ->
  type o = CREATE ->
  as_uint (vars w) (sender o) = Some d ->
  contracts w !! caddr d (nonce ra) = Some rx ->
  exists w',
    run eng caddr (S fuel) w = Raise (WorldException AddressInUse) w' /\
    call_stack w' = A :: rest /\ current_tx_num w' = S (current_tx_num w) /\
    nonces w' = <[A := nonce ra + 1]> (nonces w).
Proof.
  intros Hcs HA Hrt Hs0 Ho0 Hty Hd Hx.
  destruct w as [cts cs q cur num vs bl evs clk]; cbn in *; subst cs.
  destruct ra as [ad nc rs ini cd]; destruct rs as [|rt0 rs]; [discriminate|].
  injection Hrt as <-; cbn in *.
  destruct rt0 as [[t0 o0 r0 st0 m0] i0].
  destruct o as [oo os orc ov od ogp ogl oty oro orl ors]; cbn in *; subst oty.
  unfold nonces; cbn.
  destruct (Z.eq_dec (caddr d nc) A) as [E|E].
  - clear Hx. go; red_run. rewrite E. go; red_run.
    eexists; split; [reflexivity|]. cbn. split; [reflexivity|]. split; [reflexivity|].
    rewrite insert_insert_eq, fmap_insert. reflexivity.
  - go; red_run.
    eexists; split; [reflexivity|]. cbn. split; [reflexivity|]. split; [reflexivity|].
    rewrite insert_insert_eq, fmap_insert. reflexivity.
Qed.

(** An outgoing CREATE whose constructor then exits with STOP or RETURN:
    the new runner is initialized with the returned data as code and no
    runtime, the deployer's stack gets the new address on top, its nonce is
    incremented, its outgoing transaction reset and its last call result
    set to the constructor's result. *)
Theorem create_success eng caddr (w : EVMWorld) A rest ra rta o d ct :
  call_stack w = A :: rest ->
  contracts w !! A = Some ra ->
  current_runtime ra = Some rta ->
  ev_stop (eng (engine_clock w)) = NONE ->
  ev_outgoing (eng (engine_clock w)) = Some o ->
  type o = CREATE ->
  as_uint (vars w) (sender o) = Some d ->
  contracts w !! caddr d (nonce ra) = None ->
  current_tx w = Some ct ->
  ev_stop (eng (S (engine_clock w))) = EXIT ->
  ev_exit_status (eng (S (engine_clock w))) = TX_RES_STOP \/
  ev_exit_status (eng (S (engine_clock w))) = TX_RES_RETURN ->
  let new := caddr d (nonce ra) in
  let res := ev_result (eng (S (engine_clock w))) in
  exists w',
    run eng caddr 2 w = Ok None w' /\
    call_stack w' = A :: rest /\
    current_tx_num w' = S (current_tx_num w) /\
    contracts w' !! new = Some (mkContractRunner new 1 [] true (return_data res)) /\
    exists ra' rta',
      contracts w' !! A = Some ra' /\
      nonce ra' = nonce ra + 1 /\
      current_runtime ra' = Some rta' /\
      stack (engine rta') = Cst 256 new :: stack (engine rta) /\
      outgoing_transaction (engine rta') = None /\
      result_from_last_call (engine rta') = Some res.
Proof.
  intros Hcs HA Hrt Hs0 Ho0 Hty Hd Hnew Hct Hs1 Hx new res.
  assert (Hne : caddr d (nonce ra) <> A) by (intros E; rewrite E in Hnew; congruence).
  assert (Hne' : A <> caddr d (nonce ra)) by congruence.
  unfold new, res; clear new res.
  destruct w as [cts cs q cur num vs bl evs clk]; cbn in *; subst cs cur.
  destruct ra as [ad nc rs ini cd]; destruct rs as [|rt0 rs]; [discriminate|].
  injection Hrt as <-; cbn in *.
  destruct rt0 as [[t0 o0 r0 st0 m0] i0].
  destruct o as [oo os orc ov od ogp ogl oty oro orl ors]; cbn in *; subst oty.
  unfold TX_RES_STOP, TX_RES_RETURN in *.
  destruct Hx as [Hx|Hx];
    assert (H2 : (ev_exit_status (eng (S clk)) =? 2) = false) by (rewrite Hx; reflexivity);
    do 4 (go; red_run; rewrite ?Hx; cbv [Z.eqb Pos.eqb nth_error]).
  all: eexists; split; [reflexivity|]; cbn.
  all: split; [reflexivity|]; split; [reflexivity|].
  all: split; [rewrite lookup_insert_ne by congruence; rewrite lookup_insert_eq; reflexivity|].
  all: do 2 eexists; split; [rewrite lookup_insert_eq; reflexivity|]; repeat split.
Qed.

Lemma push_transactions_state ts (w : EVMWorld) :
  push_transactions ts w = Ok tt (with_tx_queue (fun q => q ++ ts) w).
Proof.
  revert w. induction ts as [|t r IH]; intros w; cbn.
  - destruct w; unfold ret, with_tx_queue; cbn. rewrite app_nil_r. reflexivity.
  - unfold bind, push_transaction, modify. rewrite IH.
    destruct w; unfold with_tx_queue; cbn. rewrite <- app_assoc. reflexivity.
Qed.

(** [push_transactions] appends the list to the queue in order, so the
    next transaction taken is the head of the old queue followed by the
    pushed ones. *)
Theorem push_transactions_fifo ts (w : EVMWorld) :
  push_transactions ts w = Ok tt (with_tx_queue (fun q => q ++ ts) w) /\
  forall t q, tx_queue w ++ ts = t :: q ->
    (_ <- push_transactions ts ;; next_transaction) w = Ok t (with_tx_queue (fun _ => q) w).
Proof.
  split; [apply push_transactions_state|].
  intros t q E. unfold bind at 1. rewrite push_transactions_state.
  destruct w; cbn in *. unfold next_transaction, bind, get_state, lift_opt, modify, ret, with_tx_queue; cbn.
  rewrite E. reflexivity.
Qed.

Lemma list_remove_app_not_in `{EqDecision Mon} (m : Mon) ms :
  m ∉ ms -> list_remove m (ms ++ [m]) = ms.
Proof.
  induction ms as [|x r IH]; intros Hn; cbn.
  - rewrite decide_True; reflexivity.
  - rewrite decide_False by (intros ->; apply Hn; left).
    rewrite IH; [reflexivity|]. intros Hr; apply Hn; right; exact Hr.
Qed.

Lemma elem_of_list_remove `{EqDecision Mon} (m x : Mon) ms :
  NoDup ms -> x ∈ list_remove m ms <-> x ∈ ms /\ x <> m.
Proof.
  induction ms as [|y r IH]; intros Hnd; cbn.
  - split; [intros Hx; inversion Hx | intros [Hx _]; inversion Hx].
  - apply NoDup_cons in Hnd as [Hy Hnd].
    case_decide as Hym.
    + subst y. split.
      * intros Hx. split; [right; exact Hx|]. intros ->. contradiction.
      * intros [Hx Hne]. apply elem_of_cons in Hx as [->|Hx]; [contradiction|exact Hx].
    + rewrite elem_of_cons, elem_of_cons, IH by exact Hnd. split.
      * intros [->|[Hx Hne]]; [split; [left; reflexivity|exact Hym]|split; [right; exact Hx|exact Hne]].
      * intros [[->|Hx] Hne]; [left; reflexivity|right; split; assumption].
Qed.

Lemma NoDup_list_remove `{EqDecision Mon} (m : Mon) ms :
  NoDup ms -> NoDup (list_remove m ms).
Proof.
  induction ms as [|y r IH]; intros Hnd; cbn; [constructor|].
  apply NoDup_cons in Hnd as [Hy Hnd'].
  case_decide; [exact Hnd'|].
  constructor; [|apply IH; exact Hnd'].
  rewrite elem_of_list_remove by exact Hnd'. intros [Hx _]. contradiction.
Qed.

(** Attaching a monitor that is not attached keeps the monitor list
    without duplicates; attaching it again raises, and detaching it gives
    back the previous list. *)
Theorem attach_monitor_spec `{EqDecision Mon} (m : Mon) ms ms' :
  NoDup ms -> attach_monitor m ms = inr ms' ->
  NoDup ms' /\ m ∈ ms' /\
  attach_monitor m ms' = inl MonitorAlreadyAttached /\
  detach_monitor m ms' = inr ms.
Proof.
  intros Hnd. unfold attach_monitor. case_decide as Hin; [discriminate|].
  intros E; injection E as <-.
  assert (Hm : m ∈ ms ++ [m]) by (apply elem_of_app; right; left).
  split; [apply NoDup_app; split; [exact Hnd|split; [|apply NoDup_singleton]]|].
  { intros x Hx Hx'. apply list_elem_of_singleton in Hx'. subst x. contradiction. }
  split; [exact Hm|]. split; [rewrite decide_True by exact Hm; reflexivity|].
  unfold detach_monitor. rewrite decide_True by exact Hm.
  rewrite list_remove_app_not_in by exact Hin. reflexivity.
Qed.

(** On a list without duplicates, [detach_monitor] raises only when the
    monitor is absent, and otherwise removes that monitor and keeps every
    other one. *)
Theorem detach_monitor_spec `{EqDecision Mon} (m : Mon) ms :
  NoDup ms ->
  match detach_monitor m ms with
  | inl e => e = MonitorNotAttached /\ ~ m ∈ ms
  | inr ms' => NoDup ms' /\ ~ m ∈ ms' /\ (forall x, x <> m -> x ∈ ms' <-> x ∈ ms) /\
               length ms' = pred (length ms)
  end.
Proof.
  intros Hnd. unfold detach_monitor. case_decide as Hin; [|split; [reflexivity|exact Hin]].
  split; [apply NoDup_list_remove; exact Hnd|].
  split; [rewrite elem_of_list_remove by exact Hnd; intros [_ Hne]; apply Hne; reflexivity|].
  split; [intros x Hne; rewrite elem_of_list_remove by exact Hnd; tauto|].
  clear Hnd. induction ms as [|y r IH]; [inversion Hin|]. cbn.
  case_decide as Hy; [reflexivity|].
  apply elem_of_cons in Hin as [->|Hin]; [contradiction|].
  cbn. rewrite IH by exact Hin. destruct r; [inversion Hin|reflexivity].
Qed.

Lemma run_single_transaction_witness :
  run Worlds.exit_answers Scenario.new_addr 2 Worlds.idle_A =
  Ok (Some EXIT) (mkEVMWorld (contracts Worlds.idle_A) [] [] (Some Scenario.atx_A) 1
    (ctx Scenario.atx_A ∪ vars Worlds.idle_A)
    ((block_num_inc Scenario.atx_A, block_timestamp_inc Scenario.atx_A) :: block_log Worlds.idle_A)
    (on_transaction (tx Scenario.atx_A) :: on_new_runtime (EVMRuntime_new Scenario.atx_A) :: events Worlds.idle_A)
    1).
Proof.
  apply (run_single_transaction 0 Worlds.exit_answers Scenario.new_addr Worlds.idle_A
           Scenario.atx_A Scenario.runner_A); reflexivity.
Defined.

Lemma run_no_contract_at_recipient_witness :
  run Worlds.exit_answers Scenario.new_addr 1 Worlds.idle_empty =
  Raise (WorldException NoContractAtRecipient)
    (mkEVMWorld ∅ [] [] (Some Scenario.atx_A) 1 ∅ [] [] 0).
Proof.
  apply (run_no_contract_at_recipient 0 Worlds.exit_answers Scenario.new_addr Worlds.idle_empty
           Scenario.atx_A []); reflexivity.
Defined.

Lemma run_stops_on_other_reason_witness :
  exists w', run Worlds.hook_answers Scenario.new_addr 1 Scenario.world_A = Ok (Some HOOK) w' /\
    call_stack w' = [10] /\ tx_queue w' = [] /\ current_tx_num w' = 1%nat /\ engine_clock w' = 1%nat.
Proof.
  apply (run_stops_on_other_reason 0 Worlds.hook_answers Scenario.new_addr Scenario.world_A
           Scenario.world_A 10 [] Scenario.runner_A Scenario.rt_A HOOK); try reflexivity; discriminate.
Defined.

Lemma run_call_no_contract_witness :
  exists w',
    run (Scenario.engine_answers CALL) Scenario.new_addr 1 Scenario.world_A =
      Raise (WorldException NoContractForCall) w' /\
    call_stack w' = [10] /\ tx_queue w' = [] /\ current_tx_num w' = 2%nat /\
    nonces w' = nonces Scenario.world_A.
Proof.
  apply (run_call_no_contract 0 (Scenario.engine_answers CALL) Scenario.new_addr Scenario.world_A
           10 [] Scenario.runner_A Scenario.rt_A (Scenario.out_tx CALL)); reflexivity.
Defined.


Lemma run_create_address_in_use_witness :
  exists w',
    run (Scenario.engine_answers CREATE) Scenario.new_addr 1 Worlds.world_A_taken =
      Raise (WorldException AddressInUse) w' /\
    call_stack w' = [10] /\ current_tx_num w' = 2%nat /\
    nonces w' = <[10 := 1 + 1]> (nonces Worlds.world_A_taken).
Proof.
  apply (run_create_address_in_use 0 (Scenario.engine_answers CREATE) Scenario.new_addr
           Worlds.world_A_taken 10 [] Scenario.runner_A Scenario.rt_A (Scenario.out_tx CREATE) 10
           Worlds.runner_B); reflexivity.
Defined.

Lemma create_success_witness :
  exists w',
    run Worlds.create_answers Scenario.new_addr 2 Scenario.world_A = Ok None w' /\
    call_stack w' = [10] /\ current_tx_num w' = 2%nat /\
    contracts w' !! 1001 = Some (mkContractRunner 1001 1 [] true [Cst 8 96]) /\
    exists ra' rta',
      contracts w' !! 10 = Some ra' /\ nonce ra' = 1 + 1 /\
      current_runtime ra' = Some rta' /\
      stack (engine rta') = Cst 256 1001 :: stack (engine Scenario.rt_A) /\
      outgoing_transaction (engine rta') = None /\
      result_from_last_call (engine rta') = Some Worlds.ctor_result.
Proof.
  apply (create_success Worlds.create_answers Scenario.new_addr Scenario.world_A 10 []
           Scenario.runner_A Scenario.rt_A (Scenario.out_tx CREATE) 10 Scenario.atx_A);
    try reflexivity; right; reflexivity.
Defined.

Lemma attach_monitor_spec_witness :
  NoDup [3; 4] /\ attach_monitor 5 [3; 4] = inr [3; 4; 5] /\
  NoDup [3; 4; 5] /\ 5 ∈ [3; 4; 5] /\
  attach_monitor 5 [3; 4; 5] = inl MonitorAlreadyAttached /\
  detach_monitor 5 [3; 4; 5] = inr [3; 4].
Proof.
  split; [apply (bool_decide_unpack _ (dec := NoDup_dec _)); vm_compute; exact I|]. split; [reflexivity|].
  apply (attach_monitor_spec 5 [3; 4] [3; 4; 5]); [apply (bool_decide_unpack _ (dec := NoDup_dec _)); vm_compute; exact I|reflexivity].
Defined.

Lemma detach_monitor_spec_witness :
  NoDup [3; 4; 5] /\
  NoDup [3; 5] /\ ~ 4 ∈ [3; 5] /\ (forall x, x <> 4 -> x ∈ [3; 5] <-> x ∈ [3; 4; 5]) /\
  length [3; 5] = pred (length [3; 4; 5]).
Proof.
  split; [apply (bool_decide_unpack _ (dec := NoDup_dec _)); vm_compute; exact I|].
  exact (detach_monitor_spec 4 [3; 4; 5] ltac:(apply (bool_decide_unpack _ (dec := NoDup_dec _)); vm_compute; exact I)).
Defined.

(* ================================================================== *)
(** * Properties of the corpus bridge *)

Open Scope string_scope.

(** C5: the round trip fails on a transaction without an argument list.
    Whatever [function_call] returns, [load_tx] accepts the call [f] whose
    [contents] holds only the function name, while [update_tx] with the
    empty model raises [IndexError] on [call["contents"][1]] instead of
    returning the transaction unchanged. *)
Theorem update_tx_no_arg_list `{UtilFns} `{AbiFns} r :
  function_call (JStr "f") "()" ∅ "tx0" [] = POk r ->
  (exists atx, load_tx (tx_call [JStr "f"]) "tx0" = POk atx) /\
  exists h, (v <- json_alloc (tx_call [JStr "f"]) ;; update_tx ∅ v "tx0") [] = Raise IndexError h.
Proof.
  intros Hfc. split; [|eexists; vm_compute; reflexivity].
  unfold load_tx. cbv -[function_call insert empty] in Hfc |- *.
  rewrite Hfc. eexists; reflexivity.
Qed.

(** C6: [update_tx] mutates the dictionary it is given: the copy it makes
    is shallow, so writing the new block-number delay into the copied
    [_delay] list also writes into the list of the input. With the model
    [tx0_block_num_inc := 5], the input's [_delay] changes from
    ["0x0"; "0x0"] to ["0x0"; "0x5"]. *)
Theorem update_tx_mutates_input `{UtilFns} :
  exists v h0 v' h1,
    json_alloc (tx_call_delay [JStr "f"; JList []] "0x0" "0x0") [] = Ok v h0 /\
    read_json v h0 = Ok (tx_call_delay [JStr "f"; JList []] "0x0" "0x0") h0 /\
    update_tx (<["tx0_block_num_inc" := 5%Z]> ∅) v "tx0" h0 = Ok v' h1 /\
    read_json v h1 = Ok (tx_call_delay [JStr "f"; JList []] "0x0" "0x5") h1.
Proof. do 4 eexists. repeat split; vm_compute; reflexivity. Qed.

(** C7: the guard of [update_argument] tests whether [arg_name] is a
    substring of some model variable, not whether the model holds the
    variable. The model [tx0_arg10 := 7] holds neither [tx0_arg1] nor any
    [tx0_arg1_i], yet updating the AbiUInt argument [tx0_arg1] does not
    leave it unchanged: it raises the Maat error of the missing variable. *)
Theorem update_argument_substring_guard `{UtilFns} :
  let m := <["tx0_arg10" := 7%Z]> (∅ : VarContext) in
  m !! "tx0_arg1" = None /\ (forall i, m !! ("tx0_arg1_" ++ i) = None) /\
  exists h, (v <- json_alloc (abi_arg "AbiUInt" (JList [JInt 256; JStr "5"])) ;;
             update_argument m v "tx0_arg1") [] = Raise MaatError h.
Proof.
  intros m. split; [reflexivity|]. split; [|eexists; vm_compute; reflexivity].
  intros i. unfold m. rewrite lookup_insert_ne; [apply lookup_empty|].
  intros E. inversion E.
Qed.

Lemma search_spec pe prefix suffix fuel num nm :
  (0 <= num <= nm)%Z -> (Z.to_nat (nm - num) < fuel)%nat ->
  let r := search pe fuel prefix suffix num nm in
  (num <= r <= nm)%Z /\
  (forall k, (num <= k < r)%Z -> pe (candidate prefix suffix k) = true) /\
  ((r < nm)%Z -> pe (candidate prefix suffix r) = false).
Proof.
  revert num. induction fuel as [|f IH]; intros num Hr Hf; [lia|].
  cbn [search].
  destruct (pe (candidate prefix suffix num)) eqn:E; destruct (num <? nm)%Z eqn:L; cbn [andb].
  - apply Z.ltb_lt in L.
    destruct (IH (num + 1)%Z) as (H1 & H2 & H3); [lia|lia|].
    split; [lia|]. split; [|exact H3].
    intros k Hk. destruct (Z.eq_dec k num) as [->|Hne]; [exact E|apply H2; lia].
  - apply Z.ltb_ge in L. split; [lia|]. split; [intros; lia|intros; lia].
  - split; [lia|]. split; [intros; lia|intros; exact E].
  - split; [lia|]. split; [intros; lia|intros; exact E].
Qed.

(** C8: for every file-existence predicate, [get_available_filename]
    returns [prefix_n suffix] for the least [n] whose file does not exist,
    with [0 <= n < 100000], and raises the [GenericException] exactly when
    all of [0 .. 99999] are taken. *)
Theorem get_available_filename_spec pe prefix suffix :
  match get_available_filename pe prefix suffix with
  | POk name =>
      exists n, (0 <= n < num_max)%Z /\ name = candidate prefix suffix n /\
        pe (candidate prefix suffix n) = false /\
        forall k, (0 <= k < n)%Z -> pe (candidate prefix suffix k) = true
  | PRaise e =>
      e = GenericException "Can't find available filename, very odd" /\
      forall k, (0 <= k < num_max)%Z -> pe (candidate prefix suffix k) = true
  end.
Proof.
  unfold get_available_filename.
  destruct (search_spec pe prefix suffix (S (Z.to_nat num_max)) 0 num_max)
    as (H1 & H2 & H3); [unfold num_max; lia|unfold num_max; lia|].
  set (r := search pe (S (Z.to_nat num_max)) prefix suffix 0 num_max) in *.
  destruct (r >=? num_max)%Z eqn:E.
  - apply Z.geb_le in E. split; [reflexivity|]. intros k Hk. apply H2. lia.
  - rewrite Z.geb_leb in E. apply Z.leb_gt in E. exists r. split; [lia|]. split; [reflexivity|].
    split; [apply H3; lia|]. exact H2.
Qed.

(** C9: for AbiArray and AbiArrayDynamic, the result of the translation
    does not depend on the declared element type; an empty element list
    raises [IndexError]; and a successful translation has the type of the
    translated first element followed by [[n]] (resp. [[]]). *)
Theorem array_type_from_first_element `{UtilFns} fuel n t t' es :
  translate_argument_rec (S fuel) (abi_arg "AbiArray" (JList [n; t; JList es])) =
    translate_argument_rec (S fuel) (abi_arg "AbiArray" (JList [n; t'; JList es])) /\
  translate_argument_rec (S fuel) (abi_arg "AbiArrayDynamic" (JList [t; JList es])) =
    translate_argument_rec (S fuel) (abi_arg "AbiArrayDynamic" (JList [t'; JList es])) /\
  translate_argument_rec (S fuel) (abi_arg "AbiArray" (JList [n; t; JList []])) = PRaise IndexError /\
  translate_argument_rec (S fuel) (abi_arg "AbiArrayDynamic" (JList [t; JList []])) = PRaise IndexError /\
  match translate_argument_rec (S fuel) (abi_arg "AbiArray" (JList [n; t; JList es])) with
  | POk (ty, _) => exists e0 es' ty0 v0, es = e0 :: es' /\
      translate_argument_rec fuel e0 = POk (ty0, v0) /\ ty = ty0 ++ "[" ++ py_str n ++ "]"
  | PRaise _ => True
  end /\
  match translate_argument_rec (S fuel) (abi_arg "AbiArrayDynamic" (JList [t; JList es])) with
  | POk (ty, _) => exists e0 es' ty0 v0, es = e0 :: es' /\
      translate_argument_rec fuel e0 = POk (ty0, v0) /\ ty = ty0 ++ "[]"
  | PRaise _ => True
  end.
Proof.
  cbn. split; [reflexivity|]. split; [reflexivity|]. split; [reflexivity|]. split; [reflexivity|].
  unfold parse_array, pbind. simpl.
  destruct es as [|e0 es']; simpl; [split; exact I|].
  destruct (translate_argument_rec fuel e0) as [[ty0 v0]|e] eqn:E0; simpl; [|split; exact I].
  destruct (pmap (translate_argument_rec fuel) es'); simpl; [|split; exact I].
  split; do 4 eexists; repeat split; eauto.
Qed.

Lemma append_inj_l (p s1 s2 : string) : p ++ s1 = p ++ s2 -> s1 = s2.
Proof. induction p as [|c p IH]; simpl; [auto|]. intros E. injection E. exact IH. Qed.

(** C10: every transaction built by [load_tx] has the 160-bit variable
    [tx_name_sender] as both origin and sender, the variable being seeded in
    the context with the value of [_src]; its gas price and gas limit are
    the 256-bit constants read from [_gasprice'] and [_gas']. *)
Theorem load_tx_sender_and_gas `{UtilFns} `{AbiFns} (tx : json) (tx_name : string) (atx : AbstractTx) :
  load_tx tx tx_name = POk atx ->
  origin (World.tx atx) = Var 160 (tx_name ++ "_sender") /\
  sender (World.tx atx) = Var 160 (tx_name ++ "_sender") /\
  (exists j s, jgetitem tx (KStr "_src") = POk j /\ py_int16 j = POk s /\
     ctx atx !! (tx_name ++ "_sender") = Some s) /\
  (exists j g, jgetitem tx (KStr "_gasprice'") = POk j /\ py_int16 j = POk g /\
     gas_price (World.tx atx) = Cst 256 g) /\
  (exists j g, jgetitem tx (KStr "_gas'") = POk j /\ py_int16 j = POk g /\
     gas_limit (World.tx atx) = Cst 256 g).
Proof.
  intros Hl. unfold load_tx, pbind in Hl. cbv beta zeta in Hl.
  repeat match type of Hl with
         | context [match ?m with POk _ => _ | PRaise _ => _ end] =>
             let E := fresh "E" in destruct m eqn:E; try discriminate
         | context [if ?b then _ else _] =>
             let E := fresh "E" in destruct b eqn:E; try discriminate
         end.
  injection Hl as <-. cbn.
  split; [reflexivity|]. split; [reflexivity|].
  split; [|split].
  - do 2 eexists. split; [reflexivity|]. split; [eassumption|].
    rewrite lookup_insert_ne; [apply lookup_insert_eq|].
    intros Eq. apply append_inj_l in Eq. discriminate.
  - do 2 eexists. split; [reflexivity|]. split; [eassumption|reflexivity].
  - do 2 eexists. split; [reflexivity|]. split; [eassumption|reflexivity].
Qed.

Lemma update_tx_no_arg_list_witness :
  @function_call abi0 (JStr "f") "()" ∅ "tx0" [] = POk ([], ∅) /\
  (exists atx, @load_tx util0 abi0 (tx_call [JStr "f"]) "tx0" = POk atx) /\
  exists h, (v <- json_alloc (tx_call [JStr "f"]) ;; @update_tx util0 ∅ v "tx0") [] = Raise IndexError h.
Proof.
  split; [reflexivity|].
  apply (@update_tx_no_arg_list util0 abi0 ([], ∅)). reflexivity.
Defined.

Lemma load_tx_sender_and_gas_witness :
  exists atx, @load_tx util0 abi0 (tx_call [JStr "f"]) "tx0" = POk atx /\
  origin (World.tx atx) = Var 160 ("tx0" ++ "_sender") /\
  sender (World.tx atx) = Var 160 ("tx0" ++ "_sender") /\
  (exists j s, jgetitem (tx_call [JStr "f"]) (KStr "_src") = POk j /\ py_int16 j = POk s /\
     ctx atx !! ("tx0" ++ "_sender") = Some s) /\
  (exists j g, jgetitem (tx_call [JStr "f"]) (KStr "_gasprice'") = POk j /\ py_int16 j = POk g /\
     gas_price (World.tx atx) = Cst 256 g) /\
  (exists j g, jgetitem (tx_call [JStr "f"]) (KStr "_gas'") = POk j /\ py_int16 j = POk g /\
     gas_limit (World.tx atx) = Cst 256 g).
Proof.
  eexists. split; [vm_compute; reflexivity|].
  apply (@load_tx_sender_and_gas util0 abi0 (tx_call [JStr "f"]) "tx0"). vm_compute; reflexivity.
Defined.

(* ================================================================== *)
(** * Further properties of the corpus bridge *)

Import PyStr.
Open Scope Z_scope.

Lemma char_value_digit d : 0 <= d < 16 -> char_value (digit_char d) = Some d.
Proof.
  intros Hd.
  assert (d = 0 \/ d = 1 \/ d = 2 \/ d = 3 \/ d = 4 \/ d = 5 \/ d = 6 \/ d = 7 \/ d = 8 \/
          d = 9 \/ d = 10 \/ d = 11 \/ d = 12 \/ d = 13 \/ d = 14 \/ d = 15) as Hc by lia.
  repeat destruct Hc as [->|Hc]; [..|subst]; reflexivity.
Qed.

Lemma digit_char_not_sign d : digit_char d <> "-"%char /\ digit_char d <> "+"%char.
Proof.
  unfold digit_char.
  repeat match goal with |- context [match ?x with _ => _ end] => destruct x end;
    split; discriminate.
Qed.

Section Base.
Variable b : Z.
Hypothesis Hb : 2 <= b <= 16.

Lemma digits_aux_parse fuel n acc :
  0 <= n < b ^ Z.of_nat fuel ->
  parse_digits b (digits_aux fuel b n acc) 0 = parse_digits b acc n.
Proof.
  revert n acc. induction fuel as [|f IH]; intros n acc Hn.
  - simpl in Hn. assert (n = 0) as -> by lia. reflexivity.
  - cbn [digits_aux].
    assert (Hm : 0 <= n mod b < b) by (apply Z.mod_pos_bound; lia).
    destruct (n <? b) eqn:L.
    + apply Z.ltb_lt in L. cbn [parse_digits].
      rewrite char_value_digit by lia.
      replace (n mod b <? b) with true by (symmetry; apply Z.ltb_lt; lia).
      rewrite Z.mod_small by lia. f_equal; lia.
    + apply Z.ltb_ge in L. rewrite IH.
      * cbn [parse_digits]. rewrite char_value_digit by lia.
        replace (n mod b <? b) with true by (symmetry; apply Z.ltb_lt; lia).
        f_equal. pose proof (Z.div_mod n b ltac:(lia)). lia.
      * split; [apply Z.div_pos; lia|].
        apply Z.div_lt_upper_bound; [lia|].
        rewrite Nat2Z.inj_succ, Z.pow_succ_r in Hn by lia. lia.
Qed.

Lemma digits_aux_head f n acc :
  exists d r, digits_aux (S f) b n acc = String (digit_char d) r.
Proof.
  revert n acc. induction f as [|f IH]; intros n acc; cbn [digits_aux].
  - destruct (n <? b); eauto.
  - destruct (n <? b); eauto.
Qed.

Lemma digits_bound n : 0 <= n -> n < b ^ Z.of_nat (S (Z.to_nat (Z.log2 (Z.abs n + 1)))).
Proof.
  intros Hn. rewrite Z.abs_eq by lia.
  pose proof (Z.log2_spec (n + 1)) as [_ H2]; [lia|].
  rewrite Nat2Z.inj_succ, Z2Nat.id by (apply Z.log2_nonneg).
  assert (2 ^ Z.succ (Z.log2 (n + 1)) <= b ^ Z.succ (Z.log2 (n + 1)))
    by (apply Z.pow_le_mono_l; lia).
  lia.
Qed.

Lemma digits_parse n : 0 <= n -> parse_nonempty b (digits b n) = Some n.
Proof.
  intros Hn. unfold digits.
  destruct (digits_aux_head (Z.to_nat (Z.log2 (Z.abs n + 1))) n EmptyString) as (d & r & E).
  unfold parse_nonempty. rewrite E, <- E.
  rewrite digits_aux_parse by (split; [lia|apply digits_bound; lia]). reflexivity.
Qed.

Lemma digits_not_sign n : forall r, digits b n <> String "-" r /\ digits b n <> String "+" r.
Proof.
  intros r. unfold digits.
  destruct (digits_aux_head (Z.to_nat (Z.log2 (Z.abs n + 1))) n EmptyString) as (d & r' & E).
  rewrite E. destruct (digit_char_not_sign d) as [A B].
  split; intros Eq; injection Eq; intros; congruence.
Qed.

End Base.

Lemma int_dec_unsigned s :
  (forall r, s <> String "-" r /\ s <> String "+" r) -> int_dec s = parse_nonempty 10 s.
Proof.
  intros Hs. destruct s as [|c r]; [reflexivity|].
  destruct (Hs r) as [A B].
  destruct c as [b0 b1 b2 b3 b4 b5 b6 b7].
  destruct b0, b1, b2, b3, b4, b5, b6, b7; try reflexivity; congruence.
Qed.

Theorem str_int_roundtrip z : int_dec (str_int z) = Some z.
Proof.
  unfold str_int. destruct (z <? 0) eqn:L.
  - apply Z.ltb_lt in L. cbn [int_dec]. rewrite digits_parse by lia.
    simpl. f_equal. lia.
  - apply Z.ltb_ge in L. rewrite int_dec_unsigned by (apply digits_not_sign).
    apply digits_parse; lia.
Qed.

Lemma int_hex_0x s : int_hex (String "0" (String "x" s)) = parse_nonempty 16 s.
Proof. reflexivity. Qed.
Lemma int_hex_neg_0x s : int_hex (String "-" (String "0" (String "x" s))) = Z.opp <$> parse_nonempty 16 s.
Proof. reflexivity. Qed.

Theorem hex_roundtrip z : int_hex (hex z) = Some z.
Proof.
  unfold hex. destruct (z <? 0) eqn:L.
  - apply Z.ltb_lt in L. change ("-0x" ++ ?s)%string with (String "-" (String "0" (String "x" s))).
    rewrite int_hex_neg_0x, digits_parse by lia. simpl. f_equal. lia.
  - apply Z.ltb_ge in L. change ("0x" ++ ?s)%string with (String "0" (String "x" s)).
    rewrite int_hex_0x. apply digits_parse; lia.
Qed.

Lemma length_append (s1 s2 : string) : String.length (s1 ++ s2) = (String.length s1 + String.length s2)%nat.
Proof. induction s1; simpl; auto. Qed.

Lemma concat_zeros_S k :
  String.concat EmptyString (repeat "0"%string (S k)) = String "0" (String.concat EmptyString (repeat "0"%string k)).
Proof. destruct k; reflexivity. Qed.

Lemma concat_zeros_length k : String.length (String.concat EmptyString (repeat "0"%string k)) = k.
Proof. induction k; [reflexivity|]. rewrite concat_zeros_S. simpl. congruence. Qed.

Lemma parse_nonempty_ne b s : s <> EmptyString -> parse_nonempty b s = parse_digits b s 0.
Proof. destruct s; [congruence|reflexivity]. Qed.

Lemma parse_zeros k s : s <> EmptyString ->
  parse_nonempty 16 (String.concat EmptyString (repeat "0"%string k) ++ s) = parse_nonempty 16 s.
Proof.
  intros Hs. induction k as [|k IH]; [reflexivity|].
  rewrite concat_zeros_S. simpl (String "0" _ ++ s)%string.
  rewrite <- IH. rewrite (parse_nonempty_ne _ (String.concat _ _ ++ s)).
  - reflexivity.
  - destruct (String.concat _ _); simpl; [exact Hs|discriminate].
Qed.

Lemma digits_aux_len b fuel n acc k :
  2 <= b -> (1 <= k)%nat -> 0 <= n < b ^ Z.of_nat k ->
  (String.length (digits_aux fuel b n acc) <= k + String.length acc)%nat.
Proof.
  intros Hb. revert n acc k. induction fuel as [|f IH]; intros n acc k Hk Hn; cbn [digits_aux]; [lia|].
  destruct (n <? b) eqn:L; [simpl; lia|].
  apply Z.ltb_ge in L. destruct k as [|k]; [lia|].
  destruct k as [|k]; [simpl in Hn; lia|].
  specialize (IH (n / b) (String (digit_char (n mod b)) acc) (S k)).
  simpl String.length in IH. enough (0 <= n / b < b ^ Z.of_nat (S k)) by (specialize (IH ltac:(lia) H); lia).
  split; [apply Z.div_pos; lia|]. apply Z.div_lt_upper_bound; [lia|].
  rewrite (Nat2Z.inj_succ (S k)), Z.pow_succ_r in Hn by lia. lia.
Qed.

(** The sender written by [update_tx], [f"0x{z:040x}"], is 42 characters
    long and [int(_, 16)] in [load_tx] reads [z] back for every 160-bit
    [z]; for a negative [z] the string does not parse. *)
Theorem sender_format_roundtrip z :
  (0 <= z < 2 ^ 160 ->
     String.length ("0x" ++ format_0x 40 z) = 42%nat /\ int_hex ("0x" ++ format_0x 40 z) = Some z) /\
  (z < 0 -> int_hex ("0x" ++ format_0x 40 z) = None).
Proof.
  split.
  - intros Hz. unfold format_0x. replace (z <? 0) with false by (symmetry; apply Z.ltb_ge; lia).
    assert (HL : (String.length (digits 16 z) <= 40)%nat).
    { unfold digits. pose proof (digits_aux_len 16 (S (Z.to_nat (Z.log2 (Z.abs z + 1)))) z EmptyString 40) as HL.
      simpl String.length in HL. apply HL; [lia|lia|]. split; [lia|]. change (16 ^ Z.of_nat 40) with (2 ^ 160). lia. }
    split.
    + change ("0x" ++ ?s)%string with (String "0" (String "x" s)). simpl String.length.
      unfold pad_zeros. rewrite length_append, concat_zeros_length. lia.
    + change ("0x" ++ ?s)%string with (String "0" (String "x" s)). rewrite int_hex_0x.
      unfold pad_zeros. rewrite parse_zeros.
      * apply digits_parse; lia.
      * unfold digits. destruct (digits_aux_head 16 (Z.to_nat (Z.log2 (Z.abs z + 1))) z EmptyString) as (d & r & ->).
        discriminate.
  - intros Hz. unfold format_0x. replace (z <? 0) with true by (symmetry; apply Z.ltb_lt; lia).
    reflexivity.
Qed.

Open Scope string_scope.

Lemma prefix_refl s : String.prefix s s = true.
Proof. induction s; simpl; [reflexivity|]. destruct (ascii_dec a a); [exact IHs|congruence]. Qed.

Lemma is_substring_refl s : is_substring s s = true.
Proof. destruct s; cbn [is_substring]; rewrite prefix_refl; reflexivity. Qed.

Lemma guard_false (m : VarContext) name z :
  m !! name = Some z ->
  forallb (fun var => negb (is_substring name var)) (contained_vars m) = false.
Proof.
  intros Hm. apply Bool.not_true_iff_false. intros Hf.
  rewrite forallb_forall in Hf.
  assert (In name (contained_vars m)) as Hin.
  { unfold contained_vars. apply in_map_iff. exists (name, z). split; [reflexivity|].
    apply list_elem_of_In. apply elem_of_map_to_list. exact Hm. }
  specialize (Hf _ Hin). rewrite is_substring_refl in Hf. discriminate.
Qed.

(** [update_argument] followed by [translate_argument]: for a variable
    [name] of the model, an [AbiUInt], [AbiInt], [AbiAddress] or [AbiBool]
    argument rewritten by [update_argument] translates back to the model's
    value (its two's complement conversion for [AbiInt], its truth value
    for [AbiBool]). *)
Theorem update_argument_translate_roundtrip `{UtilFns} (m : VarContext) name z bits s :
  m !! name = Some z ->
  (exists (h : heap) (j : json),
    (v <- json_alloc (abi_arg "AbiUInt" (JList [JInt bits; JStr s])) ;;
     _ <- update_argument m v name ;; read_json v) [] = Ok j h /\
    translate_argument j = POk ("uint" ++ PyStr.str_int bits, AInt z)) /\
  (forall r, twos_complement_convert z (JInt bits) = POk r ->
   exists (h : heap) (j : json),
    (v <- json_alloc (abi_arg "AbiInt" (JList [JInt bits; JStr s])) ;;
     _ <- update_argument m v name ;; read_json v) [] = Ok j h /\
    translate_argument j = POk ("int" ++ PyStr.str_int bits, AInt r)) /\
  (exists (h : heap) (j : json),
    (v <- json_alloc (abi_arg "AbiAddress" (JStr s)) ;;
     _ <- update_argument m v name ;; read_json v) [] = Ok j h /\
    translate_argument j = POk ("address", AInt z)) /\
  (forall b, exists (h : heap) (j : json),
    (v <- json_alloc (abi_arg "AbiBool" (JBool b)) ;;
     _ <- update_argument m v name ;; read_json v) [] = Ok j h /\
    translate_argument j = POk ("bool", AJson (JBool (int_to_bool z)))).
Proof.
  intros Hm.
  unfold update_argument, recursion_limit. change 1000%nat with (S 999). generalize 999%nat as f. intros f.
  split; [|split; [|split]]; [| intros r Hr | | intros b];
    do 2 eexists; (split;
    [ cbn -[update_argument_rec]; cbn [update_argument_rec];
      rewrite (guard_false m name z Hm);
      unfold model_get; rewrite Hm;
      lazy -[PyStr.str_int PyStr.hex twos_complement_convert];
      rewrite ?Hr; reflexivity
    | cbn -[PyStr.str_int PyStr.hex]; change (Z.to_nat 0) with 0%nat; change (Z.to_nat 1) with 1%nat;
      cbn -[PyStr.str_int PyStr.hex];
      rewrite ?str_int_roundtrip, ?hex_roundtrip; reflexivity ]).
Qed.

(** The [AbiBytes] loop of [update_argument] within bounds: it keeps the
    length of the byte list and sets exactly the positions [j] of the range
    for which the model holds [arg_name_j], to that value masked with
    [0xFF]. *)
Theorem bytes_loop_spec (m : VarContext) name k i val (h : heap) :
  (0 <= i)%Z -> (i + Z.of_nat k <= Z.of_nat (List.length val))%Z ->
  exists val', bytes_loop m name k i val h = Ok val' h /\
    List.length val' = List.length val /\
    forall j, (j < List.length val)%nat ->
      val' !! j =
        if ((i <=? Z.of_nat j) && (Z.of_nat j <? i + Z.of_nat k))%Z
        then match m !! (name ++ "_" ++ PyStr.str_int (Z.of_nat j)) with
             | Some x => Some (Z.land x 255)
             | None => val !! j
             end
        else val !! j.
Proof.
  revert i val. induction k as [|k IH]; intros i val Hi Hk.
  - exists val. split; [reflexivity|split; [reflexivity|]].
    intros j Hj. destruct ((i <=? Z.of_nat j) && (Z.of_nat j <? i + Z.of_nat 0))%Z eqn:E;
      [|reflexivity].
    apply andb_true_iff in E as [E1 E2]. apply Z.leb_le in E1. apply Z.ltb_lt in E2. lia.
  - cbn [bytes_loop]. unfold contains.
    destruct (m !! (name ++ "_" ++ PyStr.str_int i)) as [x|] eqn:Ex.
    + assert (Hp : py_pos (List.length val) i = Some (Z.to_nat i)).
      { unfold py_pos. destruct (Z.ltb_spec i 0); [lia|].
        destruct (Z.ltb_spec i (Z.of_nat (List.length val))); [reflexivity|lia]. }
      destruct (IH (i + 1)%Z (<[Z.to_nat i := Z.land x 255]> val)) as (val' & Hrun & Hlen & Hj);
        [lia| rewrite length_insert; lia|].
      exists val'. unfold bind, model_get, lift_opt. rewrite Ex, Hp. unfold ret at 1 2 3.
      rewrite Hrun. split; [reflexivity|]. rewrite length_insert in Hlen.
      split; [exact Hlen|]. intros j Hjl. rewrite length_insert in Hj.
      rewrite (Hj j Hjl).
      destruct (decide (j = Z.to_nat i)) as [->|Hne].
      * rewrite Z2Nat.id by lia. rewrite Ex.
        replace ((i + 1 <=? i) && (i <? i + 1 + Z.of_nat k))%Z with false
          by (symmetry; apply andb_false_iff; left; apply Z.leb_gt; lia).
        replace ((i <=? i) && (i <? i + Z.of_nat (S k)))%Z with true
          by (symmetry; apply andb_true_iff; split; [apply Z.leb_le|apply Z.ltb_lt]; lia).
        rewrite list_lookup_insert. case_decide; [reflexivity|lia].
      * rewrite list_lookup_insert. case_decide; [lia|].
        assert (Z.of_nat j <> i) by lia.
        destruct (Z.leb_spec (i + 1) (Z.of_nat j)), (Z.leb_spec i (Z.of_nat j)),
          (Z.ltb_spec (Z.of_nat j) (i + 1 + Z.of_nat k)),
          (Z.ltb_spec (Z.of_nat j) (i + Z.of_nat (S k))); cbn [andb]; try reflexivity; lia.
    + destruct (IH (i + 1)%Z val) as (val' & Hrun & Hlen & Hj); [lia|lia|].
      exists val'. unfold bind, ret at 1. rewrite Hrun.
      split; [reflexivity|]. split; [exact Hlen|]. intros j Hjl. rewrite (Hj j Hjl).
      destruct (decide (Z.of_nat j = i)) as [<-|Hne].
      * rewrite Ex.
        destruct (Z.leb_spec (Z.of_nat j + 1) (Z.of_nat j)), (Z.leb_spec (Z.of_nat j) (Z.of_nat j)),
          (Z.ltb_spec (Z.of_nat j) (Z.of_nat j + 1 + Z.of_nat k)),
          (Z.ltb_spec (Z.of_nat j) (Z.of_nat j + Z.of_nat (S k))); cbn [andb]; try reflexivity; lia.
      * destruct (Z.leb_spec (i + 1) (Z.of_nat j)), (Z.leb_spec i (Z.of_nat j)),
          (Z.ltb_spec (Z.of_nat j) (i + 1 + Z.of_nat k)),
          (Z.ltb_spec (Z.of_nat j) (i + Z.of_nat (S k))); cbn [andb]; try reflexivity; lia.
Qed.

(** The [AbiBytes] loop of [update_argument] raises [IndexError] when the
    range runs past the end of the byte list and the model holds the byte
    variable of the first missing position. *)
Theorem bytes_loop_index_error (m : VarContext) name k i val (h : heap) x :
  (0 <= i <= Z.of_nat (List.length val))%Z ->
  (Z.of_nat (List.length val) < i + Z.of_nat k)%Z ->
  m !! (name ++ "_" ++ PyStr.str_int (Z.of_nat (List.length val))) = Some x ->
  bytes_loop m name k i val h = Raise IndexError h.
Proof.
  revert i val. induction k as [|k IH]; intros i val Hi Hk Hx; [lia|].
  cbn [bytes_loop]. unfold contains.
  destruct (Z.eq_dec i (Z.of_nat (List.length val))) as [->|Hne].
  - rewrite Hx. unfold bind, model_get, lift_opt, ret. rewrite Hx.
    unfold py_pos. destruct (Z.ltb_spec (Z.of_nat (List.length val)) 0); [lia|].
    destruct (Z.ltb_spec (Z.of_nat (List.length val)) (Z.of_nat (List.length val))); [lia|].
    reflexivity.
  - destruct (m !! (name ++ "_" ++ PyStr.str_int i)) as [y|] eqn:Ey.
    + assert (Hp : py_pos (List.length val) i = Some (Z.to_nat i)).
      { unfold py_pos. destruct (Z.ltb_spec i 0); [lia|].
        destruct (Z.ltb_spec i (Z.of_nat (List.length val))); [reflexivity|lia]. }
      unfold bind at 1, model_get, lift_opt. rewrite Ey. unfold bind, ret. rewrite Hp.
      apply IH; rewrite ?length_insert; [lia|lia|exact Hx].
    + unfold bind at 1, ret at 1. apply IH; [lia|lia|exact Hx].
Qed.

Lemma to_json_mono f h v j :
  to_json f h v = Some j -> forall f' ext, (f <= f')%nat -> to_json f' (h ++ ext)%list v = Some j.
Proof.
  revert h v j. induction f as [|f IH]; intros h v j Hj f' ext Hle.
  - destruct v, f'; simpl in *; congruence.
  - destruct f' as [|f']; [lia|].
    destruct v as [| | | |l]; simpl in *; try exact Hj.
    destruct (nth_error h l) as [o|] eqn:E; [|discriminate].
    rewrite nth_error_app1 by (apply nth_error_Some; congruence). rewrite E. clear E.
    destruct o as [vs|kv].
    + revert j Hj. induction vs as [|x r IHr]; intros j Hj; [exact Hj|].
      destruct (to_json f h x) as [jx|] eqn:Ex; [|discriminate].
      rewrite (IH h x jx Ex f' ext) by lia.
      match type of Hj with context[match ?g with Some _ => _ | None => _ end] =>
        destruct g as [js|] eqn:Er end; [|discriminate].
      specialize (IHr (JList js) eq_refl).
      apply fmap_Some in IHr as (js' & Er' & Ejs). injection Ejs as <-.
      simpl. rewrite Er'. exact Hj.
    + revert j Hj. induction kv as [|[k x] r IHr]; intros j Hj; [exact Hj|].
      destruct (to_json f h x) as [jx|] eqn:Ex; [|discriminate].
      rewrite (IH h x jx Ex f' ext) by lia.
      match type of Hj with context[match ?g with Some _ => _ | None => _ end] =>
        destruct g as [js|] eqn:Er end; [|discriminate].
      specialize (IHr (JObj js) eq_refl).
      apply fmap_Some in IHr as (js' & Er' & Ejs). injection Ejs as <-.
      simpl. rewrite Er'. exact Hj.
Qed.

Lemma to_json_same_ref f h l l' :
  nth_error h l = nth_error h l' -> to_json (S f) h (PyRef l) = to_json (S f) h (PyRef l').
Proof. intros E. cbn [to_json]. rewrite E. reflexivity. Qed.

Lemma getitem_pure v k (s : heap) a s' : getitem v k s = Ok a s' -> s' = s.
Proof.
  unfold getitem, bind, get_state, lift_opt, ret, throw.
  repeat case_match; congruence.
Qed.

Lemma py_iter_pure v (s : heap) a s' : py_iter v s = Ok a s' -> s' = s.
Proof.
  unfold py_iter, bind, get_state, lift_opt, ret, throw.
  repeat case_match; congruence.
Qed.

Lemma py_copy_spec v (s : heap) v' s' :
  py_copy v s = Ok v' s' ->
  exists l o, v = PyRef l /\ nth_error s l = Some o /\ s' = (s ++ [o])%list /\ v' = PyRef (List.length s).
Proof.
  unfold py_copy, alloc, bind, get_state, modify, ret, throw.
  destruct v; try discriminate. destruct (nth_error s l) eqn:E; [|discriminate].
  intros Hc; injection Hc as <- <-. eauto 6.
Qed.

Lemma contained_vars_empty : contained_vars ∅ = [].
Proof. unfold contained_vars. rewrite map_to_list_empty. reflexivity. Qed.

Lemma contains_empty s : contains ∅ s = false.
Proof. unfold contains. rewrite lookup_empty. reflexivity. Qed.

Lemma update_argument_empty `{UtilFns} v n : update_argument ∅ v n = ret tt.
Proof.
  unfold update_argument, recursion_limit. change 1000%nat with (S 999).
  generalize 999%nat as f. intros f.
  cbn [update_argument_rec]. rewrite contained_vars_empty. reflexivity.
Qed.

Lemma for_enum_ret (l : list pyval) body :
  (forall i x, body i x = ret tt) -> forall i (s : heap), for_enum i l body s = Ok tt s.
Proof.
  intros Hb. induction l as [|x r IH]; intros i s; [reflexivity|].
  cbn [for_enum]. unfold bind. rewrite Hb. apply IH.
Qed.

Lemma update_tx_empty_shape `{UtilFns} tx name (h : heap) v h' :
  update_tx ∅ tx name h = Ok v h' ->
  exists l o, tx = PyRef l /\ nth_error h l = Some o /\ h' = (h ++ [o])%list /\
    v = PyRef (List.length h).
Proof.
  intros Hrun. unfold update_tx in Hrun.
  unfold bind at 1 in Hrun. destruct (py_copy tx h) as [tx' h1|e h1] eqn:Ec; [|discriminate].
  apply py_copy_spec in Ec as (l & o & -> & Ho & -> & ->).
  unfold bind at 1 in Hrun.
  destruct (getitem (PyRef (List.length h)) (KStr "_call") (h ++ [o])%list) as [a1 s1|] eqn:E1;
    [|discriminate]. apply getitem_pure in E1 as ->.
  unfold bind at 1 in Hrun. destruct (getitem a1 _ (h ++ [o])%list) as [a2 s2|] eqn:E2;
    [|discriminate]. apply getitem_pure in E2 as ->.
  unfold bind at 1 in Hrun. destruct (getitem a2 _ (h ++ [o])%list) as [a3 s3|] eqn:E3;
    [|discriminate]. apply getitem_pure in E3 as ->.
  unfold bind at 1 in Hrun. destruct (py_iter a3 (h ++ [o])%list) as [a4 s4|] eqn:E4;
    [|discriminate]. apply py_iter_pure in E4 as ->.
  unfold bind at 1 in Hrun.
  rewrite for_enum_ret in Hrun by (intros; apply update_argument_empty).
  rewrite !contains_empty in Hrun. unfold bind, ret in Hrun.
  injection Hrun as <- <-.
  exists l, o. auto.
Qed.

(** [update_tx] with the empty model returns a fresh shallow copy of the
    transaction dict that denotes the same JSON document. *)
Theorem update_tx_empty_model `{UtilFns} tx name (h : heap) v h' :
  update_tx ∅ tx name h = Ok v h' ->
  exists l o, tx = PyRef l /\ nth_error h l = Some o /\ h' = (h ++ [o])%list /\
    v = PyRef (List.length h) /\
    forall j, read_json tx h = Ok j h -> read_json v h' = Ok j h'.
Proof.
  intros Hrun. apply update_tx_empty_shape in Hrun as (l & o & -> & Ho & -> & ->).
  exists l, o. split; [reflexivity|]. split; [exact Ho|]. do 2 (split; [reflexivity|]).
  unfold read_json, bind, get_state, lift_opt, ret, throw.
  intros j Hj. destruct (to_json (S (List.length h)) h (PyRef l)) as [j0|] eqn:Ej; [|discriminate].
  injection Hj as <-.
  assert (Hm := to_json_mono _ _ _ _ Ej (S (S (List.length h))) [o] ltac:(lia)).
  assert (Hl : (l < List.length h)%nat) by (apply nth_error_Some; congruence).
  rewrite length_app. simpl Nat.add. rewrite Nat.add_1_r.
  rewrite (to_json_same_ref _ _ _ l).
  - rewrite Hm. reflexivity.
  - rewrite nth_error_app2 by lia. rewrite Nat.sub_diag, nth_error_app1 by exact Hl.
    symmetry. exact Ho.
Qed.

Lemma update_tx_empty_model_witness :
  match json_alloc (tx_call [JStr "f"; JList [abi_arg "AbiUInt" (JList [JInt 256; JStr "7"])]]) [] with
  | Ok tx h =>
      match @update_tx util0 ∅ tx "tx0" h with
      | Ok v h' =>
          @update_tx util0 ∅ tx "tx0" h = Ok v h' /\
          exists l o, tx = PyRef l /\ nth_error h l = Some o /\ h' = (h ++ [o])%list /\
            v = PyRef (List.length h) /\
            forall j, read_json tx h = Ok j h -> read_json v h' = Ok j h'
      | Raise _ _ => False
      end
  | Raise _ _ => False
  end.
Proof.
  destruct (json_alloc _ []) as [tx h|e h] eqn:E; vm_compute in E; [|discriminate].
  injection E as <- <-. 
  destruct (@update_tx util0 ∅ _ "tx0" _) as [v h'|e h'] eqn:E; vm_compute in E; [|discriminate].
  injection E as <- <-.
  split; [vm_compute; reflexivity|].
  apply (@update_tx_empty_model util0 _ "tx0"). vm_compute. reflexivity.
Defined.

Lemma load_tx_sender_var `{UtilFns} `{AbiFns} tx name a :
  load_tx tx name = POk a -> sender (World.tx a) = Var 160 (name ++ "_sender").
Proof.
  intros Hl. unfold load_tx, pbind in Hl. cbv beta zeta in Hl.
  repeat match type of Hl with
         | context [match ?m with POk _ => _ | PRaise _ => _ end] =>
             let E := fresh "E" in destruct m eqn:E; try discriminate
         | context [if ?b then _ else _] =>
             let E := fresh "E" in destruct b eqn:E; try discriminate
         end.
  injection Hl as <-. reflexivity.
Qed.

Lemma load_txs_spec `{UtilFns} `{AbiFns} i l res :
  load_txs i l = POk res ->
  List.length res = List.length l /\
  forall k a, res !! k = Some a ->
    exists tx, l !! k = Some tx /\ load_tx tx ("tx" ++ PyStr.str_int (i + Z.of_nat k)) = POk a.
Proof.
  revert i res. induction l as [|tx r IH]; intros i res Hl.
  - injection Hl as <-. split; [reflexivity|]. intros k a Hk. discriminate.
  - cbn [load_txs] in Hl. unfold pbind in Hl.
    destruct (load_tx tx _) as [a0|e] eqn:Ea; [|discriminate].
    destruct (load_txs (i + 1) r) as [res0|e] eqn:Er; [|discriminate].
    injection Hl as <-. destruct (IH _ _ Er) as [Hlen Hk].
    split; [simpl; congruence|].
    intros [|k] a Hka.
    + injection Hka as <-. exists tx. split; [reflexivity|]. rewrite Z.add_0_r. exact Ea.
    + destruct (Hk k a Hka) as (tx' & Htx & Hload). exists tx'. split; [exact Htx|].
      replace (i + Z.of_nat (S k))%Z with (i + 1 + Z.of_nat k)%Z by lia. exact Hload.
Qed.

Lemma append_cancel_r (s1 s2 t : string) : s1 ++ t = s2 ++ t -> s1 = s2.
Proof.
  revert s2. induction s1 as [|c s1 IH]; intros [|c' s2] E; simpl in E.
  - reflexivity.
  - apply (f_equal String.length) in E. rewrite !length_append in E. simpl in E. rewrite ?length_append in E. lia.
  - apply (f_equal String.length) in E. rewrite !length_append in E. simpl in E. rewrite ?length_append in E. lia.
  - injection E as -> E. f_equal. apply IH. exact E.
Qed.

Lemma str_int_inj z1 z2 : PyStr.str_int z1 = PyStr.str_int z2 -> z1 = z2.
Proof.
  intros E. pose proof (str_int_roundtrip z1) as R1. pose proof (str_int_roundtrip z2) as R2.
  rewrite E in R1. congruence.
Qed.

(** [load_tx_sequence] returns one transaction per element of the
    document; the sender of the [k]-th is the 160-bit variable
    [tx<k>_sender], so no two transactions share a sender variable. *)
Theorem load_tx_sequence_senders `{UtilFns} `{AbiFns} data res :
  load_tx_sequence data = POk res ->
  (exists txs, json_iter data = POk txs /\ List.length res = List.length txs) /\
  (forall k a, res !! k = Some a ->
     sender (World.tx a) = Var 160 ("tx" ++ PyStr.str_int (Z.of_nat k) ++ "_sender")) /\
  (forall k1 k2 a1 a2, res !! k1 = Some a1 -> res !! k2 = Some a2 -> k1 <> k2 ->
     sender (World.tx a1) <> sender (World.tx a2)).
Proof.
  unfold load_tx_sequence, pbind. destruct (json_iter data) as [txs|e]; [|discriminate].
  intros Hl. destruct (load_txs_spec _ _ _ Hl) as [Hlen Hk].
  assert (Hs : forall k a, res !! k = Some a ->
     sender (World.tx a) = Var 160 ("tx" ++ PyStr.str_int (Z.of_nat k) ++ "_sender")).
  { intros k a Ha. destruct (Hk k a Ha) as (tx & _ & Hload).
    apply load_tx_sender_var in Hload. rewrite Hload. reflexivity. }
  split; [eauto|]. split; [exact Hs|].
  intros k1 k2 a1 a2 Ha1 Ha2 Hne Heq.
  rewrite (Hs _ _ Ha1), (Hs _ _ Ha2) in Heq. injection Heq as Heq.
  change (EmptyString ++ ?s) with s in Heq.
  apply append_cancel_r, str_int_inj in Heq. lia.
Qed.

Lemma load_tx_sequence_senders_witness :
  exists res,
    @load_tx_sequence util0 abi0 (JList [tx_call [JStr "f"]; tx_call [JStr "g"]]) = POk res /\
    ((exists txs, json_iter (JList [tx_call [JStr "f"]; tx_call [JStr "g"]]) = POk txs /\
       List.length res = List.length txs) /\
     (forall k a, res !! k = Some a ->
        sender (World.tx a) = Var 160 ("tx" ++ PyStr.str_int (Z.of_nat k) ++ "_sender")) /\
     (forall k1 k2 a1 a2, res !! k1 = Some a1 -> res !! k2 = Some a2 -> k1 <> k2 ->
        sender (World.tx a1) <> sender (World.tx a2))).
Proof.
  eexists. split; [vm_compute; reflexivity|].
  apply (@load_tx_sequence_senders util0 abi0). vm_compute. reflexivity.
Defined.

Lemma json_ind' (P : json -> Prop)
  (fnull : P JNull) (fbool : forall b, P (JBool b)) (fint : forall z, P (JInt z))
  (fstr : forall s, P (JStr s)) (flist : forall l, Forall P l -> P (JList l))
  (fobj : forall kv, Forall (fun p => P (snd p)) kv -> P (JObj kv)) : forall j, P j.
Proof.
  exact (fix F j := match j with
    | JNull => fnull | JBool b => fbool b | JInt z => fint z | JStr s => fstr s
    | JList l => flist l ((fix G l : Forall P l := match l with
                   | [] => @List.Forall_nil _ P | x :: r => @List.Forall_cons _ P x r (F x) (G r) end) l)
    | JObj kv => fobj kv ((fix G kv : Forall (fun p => P (snd p)) kv := match kv with
                   | [] => @List.Forall_nil _ (fun p => P (snd p))
                   | (k, x) :: r => @List.Forall_cons _ (fun p => P (snd p)) (k, x) r (F x) (G r) end) kv)
    end).
Qed.

Section Pairs.
Context {A B : Type} (Q : A -> B -> Prop).
Let QQ (p : string * A) (q : string * B) := fst p = fst q /\ Q (snd p) (snd q).

Lemma assoc_set_Forall2 d1 d2 k a b :
  Forall2 QQ d1 d2 -> Q a b -> Forall2 QQ (assoc_set d1 k a) (assoc_set d2 k b).
Proof.
  intros HF Hab. induction HF as [|[k1 v1] [k2 v2] r1 r2 [Hk Hq] Hr IH]; simpl in *.
  - constructor; [split; auto|constructor].
  - subst k2. destruct (String.eqb k k1).
    + constructor; [split; auto|exact Hr].
    + constructor; [split; auto|exact IH].
Qed.

Lemma dict_of_pairs_Forall2 ps qs :
  Forall2 QQ ps qs -> Forall2 QQ (dict_of_pairs ps) (dict_of_pairs qs).
Proof.
  unfold dict_of_pairs. intros HF.
  assert (Hg : forall d1 d2, Forall2 QQ d1 d2 ->
    Forall2 QQ (fold_left (fun d p => assoc_set d (fst p) (snd p)) ps d1)
               (fold_left (fun d p => assoc_set d (fst p) (snd p)) qs d2)).
  { induction HF as [|p q r1 r2 [Hk Hq] Hr IH]; intros d1 d2 Hd; simpl; [exact Hd|].
    apply IH. rewrite Hk. apply assoc_set_Forall2; assumption. }
  apply Hg. constructor.
Qed.
End Pairs.

Lemma to_json_list_intro f h l vs js :
  nth_error h l = Some (PyList vs) -> Forall2 (fun v j => to_json f h v = Some j) vs js ->
  to_json (S f) h (PyRef l) = Some (JList js).
Proof.
  intros E HF. cbn [to_json]. rewrite E. clear E.
  induction HF as [|x y r1 r2 Hxy Hr IH]; [reflexivity|].
  apply fmap_Some in IH as (js' & Er & Ejs). injection Ejs as <-.
  simpl. rewrite Hxy, Er. reflexivity.
Qed.

Lemma to_json_dict_intro f h l kv kvj :
  nth_error h l = Some (PyDict kv) ->
  Forall2 (fun p q => fst p = fst q /\ to_json f h (snd p) = Some (snd q)) kv kvj ->
  to_json (S f) h (PyRef l) = Some (JObj kvj).
Proof.
  intros E HF. cbn [to_json]. rewrite E. clear E.
  induction HF as [|[k x] [k' y] r1 r2 [Hk Hxy] Hr IH]; [reflexivity|].
  apply fmap_Some in IH as (js' & Er & Ejs). injection Ejs as <-.
  simpl in Hk, Hxy |- *. subst k'. rewrite Hxy, Er. reflexivity.
Qed.

Lemma to_json_list_inv f h l js :
  to_json (S f) h (PyRef l) = Some (JList js) ->
  exists vs, nth_error h l = Some (PyList vs) /\ Forall2 (fun v j => to_json f h v = Some j) vs js.
Proof.
  cbn [to_json]. destruct (nth_error h l) as [[vs|kv]|]; intros E; [|exfalso|discriminate].
  - exists vs. split; [reflexivity|]. revert js E.
    induction vs as [|x r IH]; intros js E.
    + injection E as <-. constructor.
    + simpl in E. destruct (to_json f h x) as [y|] eqn:Ex; [|discriminate].
      match type of E with context[match ?g with Some _ => _ | None => _ end] =>
        destruct g as [ys|] eqn:Er end; [|discriminate].
      injection E as <-. constructor; [exact Ex|]. apply IH. try rewrite Er; reflexivity.
  - apply fmap_Some in E as (? & _ & ?). discriminate.
Qed.

Lemma to_json_app f f' h ext v j :
  to_json f h v = Some j -> (f <= f')%nat -> to_json f' (h ++ ext)%list v = Some j.
Proof. intros E Hf. exact (to_json_mono _ _ _ _ E f' ext Hf). Qed.

Lemma json_alloc_read j : forall (h : heap) v h', json_alloc j h = Ok v h' ->
  (exists ext, h' = (h ++ ext)%list) /\
  to_json (List.length h' - List.length h) h' v = Some (json_normal j).
Proof.
  induction j as [|b|z|s|l IHl|kv IHkv] using json_ind'; intros h v h' E.
  1-4: injection E as <- <-; split; [exists []; rewrite app_nil_r; reflexivity|];
       rewrite Nat.sub_diag; reflexivity.
  - cbn [json_alloc] in E. unfold bind at 1 in E.
    match type of E with context[match ?F l h with Ok _ _ => _ | Raise _ _ => _ end] =>
      destruct (F l h) as [vs h1|] eqn:Eg; [|discriminate];
      assert (Hg : forall l', Forall (fun j => forall h v h', json_alloc j h = Ok v h' ->
          (exists ext, h' = (h ++ ext)%list) /\
          to_json (List.length h' - List.length h) h' v = Some (json_normal j)) l' ->
        forall h vs h1, F l' h = Ok vs h1 ->
        (exists ext, h1 = (h ++ ext)%list) /\
        Forall2 (fun v j => to_json (List.length h1 - List.length h) h1 v = Some j) vs
          (map json_normal l'))
    end.
    { clear. intros l' HF. induction HF as [|x r Hx Hr IH]; intros h vs h1 Ev.
      - injection Ev as <- <-. split; [exists []; rewrite app_nil_r; reflexivity|constructor].
      - simpl in Ev. unfold bind at 1 in Ev.
        destruct (json_alloc x h) as [v hx|] eqn:Ex; [|discriminate].
        unfold bind in Ev.
        match type of Ev with context[match ?g hx with Ok _ _ => _ | Raise _ _ => _ end] =>
          destruct (g hx) as [vs' h2|] eqn:Er; [|discriminate] end.
        unfold ret in Ev. injection Ev as <- <-.
        destruct (Hx _ _ _ Ex) as [[e1 ->] Hv].
        destruct (IH _ _ _ Er) as [[e2 ->] Hvs].
        split; [exists (e1 ++ e2)%list; rewrite app_assoc; reflexivity|].
        constructor.
        + eapply to_json_app; [exact Hv|]. rewrite !length_app. lia.
        + eapply Forall2_impl; [exact Hvs|]. intros a b Hab.
          rewrite <- (app_nil_r ((h ++ e1) ++ e2)%list).
          eapply to_json_app; [exact Hab|]. rewrite !length_app. lia. }
    destruct (Hg _ IHl _ _ _ Eg) as [[ext ->] HF].
    unfold alloc, bind, get_state, modify, ret in E. injection E as <- <-.
    split; [exists (ext ++ [PyList vs])%list; rewrite app_assoc; reflexivity|].
    replace (List.length ((h ++ ext) ++ [PyList vs])%list - List.length h)%nat
      with (S (List.length (h ++ ext)%list - List.length h))
      by (rewrite !length_app; simpl; lia).
    apply to_json_list_intro with vs.
    + rewrite nth_error_app2, Nat.sub_diag by lia. reflexivity.
    + eapply Forall2_impl; [exact HF|]. intros a b Hab. eapply to_json_app; [exact Hab|lia].
  - cbn [json_alloc] in E. unfold bind at 1 in E.
    match type of E with context[match ?F kv h with Ok _ _ => _ | Raise _ _ => _ end] =>
      destruct (F kv h) as [ps h1|] eqn:Eg; [|discriminate];
      assert (Hg : forall kv', Forall (fun p => forall h v h', json_alloc (snd p) h = Ok v h' ->
          (exists ext, h' = (h ++ ext)%list) /\
          to_json (List.length h' - List.length h) h' v = Some (json_normal (snd p))) kv' ->
        forall h ps h1, F kv' h = Ok ps h1 ->
        (exists ext, h1 = (h ++ ext)%list) /\
        Forall2 (fun p q => fst p = fst q /\
                   to_json (List.length h1 - List.length h) h1 (snd p) = Some (snd q)) ps
          (map (fun '(k, x) => (k, json_normal x)) kv'))
    end.
    { clear. intros kv' HF. induction HF as [|[k x] r Hx Hr IH]; intros h ps h1 Ev.
      - injection Ev as <- <-. split; [exists []; rewrite app_nil_r; reflexivity|constructor].
      - simpl in Ev, Hx. unfold bind at 1 in Ev.
        destruct (json_alloc x h) as [v hx|] eqn:Ex; [|discriminate].
        unfold bind in Ev.
        match type of Ev with context[match ?g hx with Ok _ _ => _ | Raise _ _ => _ end] =>
          destruct (g hx) as [ps' h2|] eqn:Er; [|discriminate] end.
        unfold ret in Ev. injection Ev as <- <-.
        destruct (Hx _ _ _ Ex) as [[e1 ->] Hv].
        destruct (IH _ _ _ Er) as [[e2 ->] Hps].
        split; [exists (e1 ++ e2)%list; rewrite app_assoc; reflexivity|].
        constructor.
        + split; [reflexivity|]. simpl. eapply to_json_app; [exact Hv|]. rewrite !length_app. lia.
        + eapply Forall2_impl; [exact Hps|]. intros a b [Hk Hab]. split; [exact Hk|].
          rewrite <- (app_nil_r ((h ++ e1) ++ e2)%list).
          eapply to_json_app; [exact Hab|]. rewrite !length_app. lia. }
    destruct (Hg _ IHkv _ _ _ Eg) as [[ext ->] HF].
    unfold alloc, bind, get_state, modify, ret in E. injection E as <- <-.
    split; [exists (ext ++ [PyDict (dict_of_pairs ps)])%list; rewrite app_assoc; reflexivity|].
    replace (List.length ((h ++ ext) ++ [PyDict (dict_of_pairs ps)])%list - List.length h)%nat
      with (S (List.length (h ++ ext)%list - List.length h))
      by (rewrite !length_app; simpl; lia).
    apply to_json_dict_intro with (dict_of_pairs ps).
    + rewrite nth_error_app2, Nat.sub_diag by lia. reflexivity.
    + apply (dict_of_pairs_Forall2
               (fun a b => to_json (List.length (h ++ ext)%list - List.length h)
                             ((h ++ ext) ++ [PyDict (dict_of_pairs ps)])%list a = Some b)).
      eapply Forall2_impl; [exact HF|]. intros a b [Hk Hab]. split; [exact Hk|].
      eapply to_json_app; [exact Hab|lia].
Qed.


Lemma denotes_app h ext v j : denotes h v j -> denotes (h ++ ext)%list v j.
Proof. unfold denotes. intros E. eapply to_json_app; [exact E|]. rewrite length_app. lia. Qed.

Lemma json_alloc_denotes j h v h' :
  json_alloc j h = Ok v h' -> denotes h' v (json_normal j).
Proof.
  intros E. destruct (json_alloc_read _ _ _ _ E) as [_ Hr]. unfold denotes.
  rewrite <- (app_nil_r h'). eapply to_json_app; [exact Hr|]. rewrite app_nil_r. lia.
Qed.

Lemma denotes_copy h l o j :
  nth_error h l = Some o -> denotes h (PyRef l) j ->
  denotes (h ++ [o])%list (PyRef (List.length h)) j.
Proof.
  unfold denotes. intros Ho E.
  assert (Hl : (l < List.length h)%nat) by (apply nth_error_Some; congruence).
  rewrite length_app. simpl Nat.add. rewrite Nat.add_1_r.
  rewrite (to_json_same_ref _ _ _ l).
  - eapply to_json_app; [exact E|lia].
  - rewrite nth_error_app2, Nat.sub_diag by lia. rewrite nth_error_app1 by exact Hl.
    symmetry. exact Ho.
Qed.

Lemma update_txs_empty_model `{UtilFns} i els js (h : heap) vs h' :
  Forall2 (denotes h) els js -> update_txs ∅ i els h = Ok vs h' ->
  (exists ext, h' = (h ++ ext)%list) /\ Forall2 (denotes h') vs js.
Proof.
  intros HF. revert js i h vs h' HF. induction els as [|x r IH]; intros js i h vs h' HF E.
  - injection E as <- <-. inversion HF. split; [exists []; rewrite app_nil_r; reflexivity|constructor].
  - inversion HF as [|? y ? ys Hx Hr]; subst.
    cbn [update_txs] in E. unfold bind at 1 in E.
    destruct (update_tx ∅ x _ h) as [v hx|] eqn:Eu; [|discriminate].
    apply update_tx_empty_shape in Eu as (l & o & -> & Ho & -> & ->).
    unfold bind in E. destruct (update_txs ∅ (i + 1) r (h ++ [o])%list) as [vs' h2|] eqn:Er;
      [|discriminate].
    unfold ret in E. injection E as <- <-.
    assert (Hr' : Forall2 (denotes (h ++ [o])%list) r ys).
    { eapply Forall2_impl; [exact Hr|]. intros; apply denotes_app; assumption. }
    destruct (IH _ _ _ _ _ Hr' Er) as [[e ->] Hvs].
    split; [exists ([o] ++ e)%list; rewrite app_assoc; reflexivity|].
    constructor; [|exact Hvs].
    apply denotes_app. apply (denotes_copy h l); assumption.
Qed.

Lemma get_available_filename_fresh pe prefix suffix name :
  get_available_filename pe prefix suffix = POk name ->
  exists n, (0 <= n < num_max)%Z /\ name = candidate prefix suffix n /\ pe name = false.
Proof.
  unfold get_available_filename.
  destruct (search_spec pe prefix suffix (S (Z.to_nat num_max)) 0 num_max)
    as (H1 & H2 & H3); [unfold num_max; lia|unfold num_max; lia|].
  set (r := search pe (S (Z.to_nat num_max)) prefix suffix 0 num_max) in *.
  destruct (r >=? num_max)%Z eqn:E; [discriminate|].
  intros Hn. injection Hn as <-.
  rewrite Z.geb_leb in E. apply Z.leb_gt in E.
  exists r. split; [lia|]. split; [reflexivity|]. apply H3. exact E.
Qed.

(** [store_new_tx_sequence] with the empty model writes back the original
    document (with objects as Python dicts) to a file name of the form
    [dirname/optik_solved_input<n>.txt] that did not exist. *)
Theorem store_new_tx_sequence_empty_model `{UtilFns} pe dn file l (h : heap) name j h' :
  store_new_tx_sequence pe dn ∅ file (JList l) h = Ok (name, j) h' ->
  j = JList (map json_normal l) /\
  exists n, name = candidate (dn file ++ "/" ++ NEW_INPUT_PREFIX) ".txt" n /\ pe name = false.
Proof.
  unfold store_new_tx_sequence. intros E.
  unfold bind at 1 in E. destruct (json_alloc (JList l) h) as [d h1|] eqn:Ed; [|discriminate].
  apply json_alloc_denotes in Ed. cbn [json_normal] in Ed.
  assert (Hd : exists ld vs, d = PyRef ld /\ nth_error h1 ld = Some (PyList vs) /\
                 Forall2 (denotes h1) vs (map json_normal l)).
  { unfold denotes in Ed. destruct (List.length h1) as [|f] eqn:Len.
    - destruct d; discriminate.
    - destruct d as [| | | |ld]; try discriminate.
      apply to_json_list_inv in Ed as (vs & Hvs & HF).
      exists ld, vs. split; [reflexivity|]. split; [exact Hvs|].
      eapply Forall2_impl; [exact HF|]. intros a b Hab. unfold denotes.
      rewrite <- (app_nil_r h1). eapply to_json_app; [exact Hab|]. rewrite app_nil_r. lia. }
  destruct Hd as (ld & vs & -> & Hvs & HF).
  unfold bind at 1 in E. unfold py_iter at 1, bind at 1, get_state at 1 in E.
  rewrite Hvs in E. unfold ret at 1 in E.
  unfold bind at 1 in E. destruct (update_txs ∅ 0 vs h1) as [vs' h2|] eqn:Eu; [|discriminate].
  destruct (update_txs_empty_model _ _ _ _ _ _ HF Eu) as [_ HF'].
  unfold bind at 1, lift_py in E.
  destruct (get_available_filename pe _ ".txt") as [nm|] eqn:Eg; [|discriminate].
  unfold ret at 1 in E.
  unfold alloc at 1, bind at 1, get_state at 1, modify at 1, ret at 1, bind at 1 in E.
  unfold read_json, bind, get_state, lift_opt in E.
  rewrite (to_json_list_intro (List.length (h2 ++ [PyList vs'])%list) _ (List.length h2) vs'
             (map json_normal l)) in E.
  - unfold ret in E. injection E as <- <- _. split; [reflexivity|].
    apply get_available_filename_fresh in Eg as (n & _ & -> & Hn). eauto.
  - rewrite nth_error_app2, Nat.sub_diag by lia. reflexivity.
  - eapply Forall2_impl; [exact HF'|]. intros a b Hab.
    eapply to_json_app; [exact Hab|]. rewrite length_app. lia.
Qed.

Lemma store_new_tx_sequence_empty_model_witness :
  match @store_new_tx_sequence util0 (fun _ => false) (fun _ => "corpus") ∅ "corpus/in.txt"
          (JList [tx_call [JStr "f"; JList []]; tx_call [JStr "g"; JList []]]) [] with
  | Ok (name, j) h' =>
      @store_new_tx_sequence util0 (fun _ => false) (fun _ => "corpus") ∅ "corpus/in.txt"
        (JList [tx_call [JStr "f"; JList []]; tx_call [JStr "g"; JList []]]) [] = Ok (name, j) h' /\
      j = JList (map json_normal [tx_call [JStr "f"; JList []]; tx_call [JStr "g"; JList []]]) /\
      exists n, name = candidate ("corpus" ++ "/" ++ NEW_INPUT_PREFIX) ".txt" n /\
        (fun _ : string => false) name = false
  | Raise _ _ => False
  end.
Proof.
  destruct (store_new_tx_sequence _ _ _ _ _ _) as [[name j] h'|e h'] eqn:E;
    vm_compute in E; [|discriminate].
  injection E as <- <- Eh.
  split; [rewrite <- Eh; vm_compute; reflexivity|].
  apply (@store_new_tx_sequence_empty_model util0 (fun _ => false) (fun _ => "corpus") "corpus/in.txt"
           _ [] _ _ h').
  rewrite <- Eh. vm_compute. reflexivity.
Defined.

Lemma sender_format_roundtrip_witness :
  String.length ("0x" ++ format_0x 40 5) = 42%nat /\ int_hex ("0x" ++ format_0x 40 5) = Some 5%Z.
Proof.
  apply (proj1 (sender_format_roundtrip 5)); split; [lia | vm_compute; reflexivity].
Defined.

Lemma update_argument_translate_roundtrip_witness :
  (exists (h : heap) (j : json),
    (v <- json_alloc (abi_arg "AbiUInt" (JList [JInt 256; JStr "0"])) ;;
     _ <- @update_argument util0 {["a" := 5%Z]} v "a" ;; read_json v) [] = Ok j h /\
    @translate_argument util0 j = POk ("uint" ++ PyStr.str_int 256, AInt 5)) /\
  (forall r, @twos_complement_convert util0 5 (JInt 256) = POk r ->
   exists (h : heap) (j : json),
    (v <- json_alloc (abi_arg "AbiInt" (JList [JInt 256; JStr "0"])) ;;
     _ <- @update_argument util0 {["a" := 5%Z]} v "a" ;; read_json v) [] = Ok j h /\
    @translate_argument util0 j = POk ("int" ++ PyStr.str_int 256, AInt r)) /\
  (exists (h : heap) (j : json),
    (v <- json_alloc (abi_arg "AbiAddress" (JStr "0")) ;;
     _ <- @update_argument util0 {["a" := 5%Z]} v "a" ;; read_json v) [] = Ok j h /\
    @translate_argument util0 j = POk ("address", AInt 5)) /\
  (forall b, exists (h : heap) (j : json),
    (v <- json_alloc (abi_arg "AbiBool" (JBool b)) ;;
     _ <- @update_argument util0 {["a" := 5%Z]} v "a" ;; read_json v) [] = Ok j h /\
    @translate_argument util0 j = POk ("bool", AJson (JBool (@int_to_bool util0 5)))).
Proof.
  apply (@update_argument_translate_roundtrip util0 {["a" := 5%Z]} "a" 5 256 "0").
  vm_compute. reflexivity.
Defined.

Lemma bytes_loop_spec_witness :
  exists val', bytes_loop {["b_1" := 300%Z]} "b" 2 1 [0; 0; 0]%Z [] = Ok val' [] /\
    List.length val' = 3%nat /\
    forall j, (j < 3)%nat ->
      val' !! j =
        if ((1 <=? Z.of_nat j) && (Z.of_nat j <? 1 + 2))%Z
        then match ({["b_1" := 300%Z]} : VarContext) !! ("b" ++ "_" ++ PyStr.str_int (Z.of_nat j)) with
             | Some x => Some (Z.land x 255)
             | None => [0; 0; 0]%Z !! j
             end
        else [0; 0; 0]%Z !! j.
Proof.
  apply (bytes_loop_spec {["b_1" := 300%Z]} "b" 2 1 [0; 0; 0]%Z []); cbn; lia.
Defined.

Lemma bytes_loop_index_error_witness :
  bytes_loop {["b_3" := 7%Z]} "b" 2 2 [0; 0; 0]%Z [] = Raise IndexError [].
Proof.
  apply (bytes_loop_index_error {["b_3" := 7%Z]} "b" 2 2 [0; 0; 0]%Z [] 7); [cbn; lia | cbn; lia | vm_compute; reflexivity].
Defined.
